(** * UrlSummeriser: the ingest-extract-complete-persist pipeline

    A shallow embedding of the two Supabase edge functions

      - [supabase/functions/summerize_url/index.ts]  (Ingest-and-Analyze)
      - [supabase/functions/process-url/index.ts]    (Analyze-Existing)

    and of the text extractor both of them inline.  Part I holds the
    definitions, Part II the lemmas about them. *)

From Stdlib Require Import List Bool Arith NArith ZArith QArith Lia String Ascii.
From Stdlib Require Import Numbers.DecimalString.
Import ListNotations.
Close Scope Q_scope.

Set Implicit Arguments.
Set Warnings "-register-all,-abstract-large-number".

(* ================================================================== *)
(** * Part I.  Definitions                                              *)
(* ================================================================== *)

(** ** JavaScript strings

    A JavaScript string is a sequence of UTF-16 code units; [length],
    [substring], [trim] and a regular expression without the [u] flag
    all work on code units.  A code unit is an [N]; no upper bound is
    imposed, so every statement below covers all real strings. *)
Module JsString.

Definition char16 := N.
Definition jsstring := list char16.

(** An ASCII literal of the source as a JavaScript string. *)
Definition s16 (s : string) : jsstring :=
  map N_of_ascii (list_ascii_of_string s).

Definition LT : char16 := 60%N.   (* '<' *)
Definition GT : char16 := 62%N.   (* '>' *)
Definition SP : char16 := 32%N.   (* ' ' *)

(** ECMAScript [WhiteSpace] and [LineTerminator]: the class [\s] of a
    regular expression and the characters [trim] removes. *)
Definition is_space (c : char16) : bool :=
  existsb (N.eqb c)
    [9; 10; 11; 12; 13; 32; 160; 5760; 8232; 8233; 8239; 8287; 12288; 65279]%N
  || ((8192 <=? c) && (c <=? 8202))%N.

Fixpoint drop_while (p : char16 -> bool) (s : jsstring) : jsstring :=
  match s with
  | [] => []
  | c :: s' => if p c then drop_while p s' else s
  end.

(** [String.prototype.trim]. *)
Definition trimStart (s : jsstring) : jsstring := drop_while is_space s.
Definition trimEnd (s : jsstring) : jsstring := rev (drop_while is_space (rev s)).
Definition trim (s : jsstring) : jsstring := trimEnd (trimStart s).

(** [String.prototype.substring(start, end)] on non-negative integer
    arguments: both are clamped to the length and swapped when out of
    order. *)
Definition substring (start end_ : nat) (s : jsstring) : jsstring :=
  let a := Nat.min start (List.length s) in
  let b := Nat.min end_ (List.length s) in
  firstn (Nat.max a b - Nat.min a b) (skipn (Nat.min a b) s).

End JsString.
Import JsString.

(** ** Regular expressions

    The fragment of ECMAScript regular expressions the source uses:
    a sequence of single-character terms, each taken once, under a
    greedy star or under a lazy star.  Matching is the backtracking
    search of the language definition, so the first match in priority
    order is the one returned. *)
Module Regex.

Inductive cset : Type :=
| Chr (c : char16)       (* a literal character *)
| NotChr (c : char16)    (* [^c] *)
| Space                  (* \s *)
| AnyChar.               (* [\s\S] *)

Inductive quant : Type :=
| Once                   (* x   *)
| Star                   (* x*  *)
| LazyStar.              (* x*? *)

Definition regex := list (cset * quant).

(** [Canonicalize] under the [i] flag (no [u] flag): the simple upper
    case mapping, except that a character at or above 128 never maps
    below 128.  Every literal of the patterns below is ASCII, so only
    the mapping on ASCII can be observed; it is the one kept here. *)
Definition canonicalize (ignoreCase : bool) (c : char16) : char16 :=
  if ignoreCase && (97 <=? c)%N && (c <=? 122)%N then (c - 32)%N else c.

Definition in_cset (ignoreCase : bool) (cs : cset) (c : char16) : bool :=
  match cs with
  | Chr x => (canonicalize ignoreCase x =? canonicalize ignoreCase c)%N
  | NotChr x => negb (canonicalize ignoreCase x =? canonicalize ignoreCase c)%N
  | Space => is_space c
  | AnyChar => true
  end.

(** [p*] followed by the continuation [k]: as many [p] as possible
    first, one fewer on each failure of [k]. *)
Fixpoint star_greedy (p : char16 -> bool) (k : jsstring -> option nat)
         (s : jsstring) : option nat :=
  match s with
  | c :: s' =>
      if p c then
        match star_greedy p k s' with
        | Some n => Some (S n)
        | None => k s
        end
      else k s
  | [] => k s
  end.

(** [p*?] followed by [k]: [k] first, one more [p] on each failure. *)
Fixpoint star_lazy (p : char16 -> bool) (k : jsstring -> option nat)
         (s : jsstring) : option nat :=
  match k s with
  | Some n => Some n
  | None =>
      match s with
      | c :: s' => if p c then option_map S (star_lazy p k s') else None
      | [] => None
      end
  end.

(** The length of the match of [r] at the start of [s], if any. *)
Fixpoint match_here (ignoreCase : bool) (r : regex) : jsstring -> option nat :=
  match r with
  | [] => fun _ => Some 0
  | (cs, Once) :: r' =>
      fun s =>
        match s with
        | c :: s' =>
            if in_cset ignoreCase cs c
            then option_map S (match_here ignoreCase r' s')
            else None
        | [] => None
        end
  | (cs, Star) :: r' =>
      star_greedy (in_cset ignoreCase cs) (match_here ignoreCase r')
  | (cs, LazyStar) :: r' =>
      star_lazy (in_cset ignoreCase cs) (match_here ignoreCase r')
  end.

(** [String.prototype.replace] with a global ([g]) regular expression
    and a constant replacement: matches are searched left to right,
    each search resuming where the previous match ended (one further
    after an empty match).  [skip] counts the characters of the
    current match still to be dropped. *)
Fixpoint replace_from (ignoreCase : bool) (r : regex) (rep : jsstring)
         (skip : nat) (s : jsstring) : jsstring :=
  match s with
  | [] =>
      match skip with
      | O => match match_here ignoreCase r [] with Some _ => rep | None => [] end
      | S _ => []
      end
  | c :: s' =>
      match skip with
      | S k => replace_from ignoreCase r rep k s'
      | O =>
          match match_here ignoreCase r s with
          | Some (S n) => rep ++ replace_from ignoreCase r rep n s'
          | Some O => rep ++ c :: replace_from ignoreCase r rep O s'
          | None => c :: replace_from ignoreCase r rep O s'
          end
      end
  end.

Definition replace_all (ignoreCase : bool) (r : regex) (rep s : jsstring) : jsstring :=
  replace_from ignoreCase r rep 0 s.

(** A literal piece of a pattern. *)
Definition lit (s : string) : regex := map (fun c => (Chr c, Once)) (s16 s).

End Regex.
Import Regex.

(** ** The text extractor

    [summerize_url/index.ts] lines 141-147 and [process-url/index.ts]
    lines 144-150 (the same chain in both). *)
Module Extractor.

(** [/<script[^>]*>[\s\S]*?<\/script>/gi] *)
Definition re_script : regex :=
  lit "<script" ++ [(NotChr GT, Star); (Chr GT, Once); (AnyChar, LazyStar)]
    ++ lit "</script>".

(** [/<style[^>]*>[\s\S]*?<\/style>/gi] *)
Definition re_style : regex :=
  lit "<style" ++ [(NotChr GT, Star); (Chr GT, Once); (AnyChar, LazyStar)]
    ++ lit "</style>".

(** [/<[^>]*>/g] *)
Definition re_tag : regex := [(Chr LT, Once); (NotChr GT, Star); (Chr GT, Once)].

(** [/\s+/g] *)
Definition re_spaces : regex := [(Space, Once); (Space, Star)].

Definition strip_script (s : jsstring) : jsstring := replace_all true re_script [] s.
Definition strip_style (s : jsstring) : jsstring := replace_all true re_style [] s.
Definition strip_tags (s : jsstring) : jsstring := replace_all false re_tag [] s.
Definition collapse_spaces (s : jsstring) : jsstring := replace_all false re_spaces [SP] s.

Definition TEXT_LIMIT : nat := 8000.

Definition extract (html : jsstring) : jsstring :=
  substring 0 TEXT_LIMIT
    (trim (collapse_spaces (strip_tags (strip_style (strip_script html))))).

End Extractor.
Import Extractor.

(** ** JavaScript values

    What [JSON.parse] produces, plus [undefined].  Numbers are the
    integral ones: identifiers, counts and status codes are all the
    handlers compute with. *)
Module Js.

(** An object is the list of its own properties, each name once. *)
Inductive jsval : Type :=
| JUndefined
| JNull
| JBool (b : bool)
| JNum (n : Z)
| JStr (s : jsstring)
| JArr (items : list jsval)
| JObj (fields : list (string * jsval)).

(** A thrown [Error]; only its [message] is ever read. *)
Record exn : Type := Error { message : jsstring }.

Inductive result (A : Type) : Type :=
| Ok (a : A)
| Throw (e : exn).
Arguments Ok {A} a.
Arguments Throw {A} e.

(** [ToBoolean]: what [!x] and [x || y] test. *)
Definition truthy (v : jsval) : bool :=
  match v with
  | JUndefined | JNull => false
  | JBool b => b
  | JNum n => negb (n =? 0)%Z
  | JStr s => match s with [] => false | _ :: _ => true end
  | JArr _ | JObj _ => true
  end.

(** [a || b] *)
Definition js_or (a b : jsval) : jsval := if truthy a then a else b.

Definition nullish (v : jsval) : bool :=
  match v with JUndefined | JNull => true | _ => false end.

Fixpoint lookup (k : string) (fields : list (string * jsval)) : jsval :=
  match fields with
  | [] => JUndefined
  | (k', v) :: rest => if (k' =? k)%string then v else lookup k rest
  end.

Definition Z_to_js (z : Z) : jsstring := s16 (NilEmpty.string_of_int (Z.to_int z)).

Definition nat_to_js (n : nat) : jsstring := Z_to_js (Z.of_nat n).

(** The message V8 gives the [TypeError] of a property read on
    [undefined] or [null]. *)
Definition type_error (v : jsval) (k : string) : exn :=
  Error (s16 "Cannot read properties of "
         ++ s16 (match v with JNull => "null" | _ => "undefined" end)
         ++ s16 " (reading '" ++ s16 k ++ s16 "')").

(** [v.k] for the property names the code reads ([choices],
    [message], and the members of the request body), none of which is
    inherited from a prototype: an own property of an object,
    [undefined] on any other value, a [TypeError] on [undefined] and
    [null]. *)
Definition get_member (v : jsval) (k : string) : result jsval :=
  match v with
  | JUndefined | JNull => Throw (type_error v k)
  | JObj fields => Ok (lookup k fields)
  | _ => Ok JUndefined
  end.

(** [v?.k] *)
Definition opt_member (v : jsval) (k : string) : jsval :=
  match v with
  | JObj fields => lookup k fields
  | _ => JUndefined
  end.

(** [v[0]] *)
Definition get_first (v : jsval) : result jsval :=
  match v with
  | JUndefined | JNull => Throw (type_error v "0")
  | JArr items => Ok (nth 0 items JUndefined)
  | JStr (c :: _) => Ok (JStr [c])
  | JObj fields => Ok (lookup "0" fields)
  | _ => Ok JUndefined
  end.

(** [const { k, ... } = v]: the [TypeError] V8 gives when [v] is
    [null] or [undefined]; [k] is the first property of the pattern. *)
Definition destructure_error (v : jsval) (k : string) : exn :=
  Error (s16 "Cannot destructure property '" ++ s16 k
         ++ s16 "' of '(intermediate value)' as it is "
         ++ s16 (match v with JNull => "null" | _ => "undefined" end) ++ s16 ".").

(** [const { k, ... } = v]: the properties of [v] by name, once [v] is
    known not to be [null] or [undefined]. *)
Definition destructure (v : jsval) (k : string) : result (string -> jsval) :=
  match v with
  | JUndefined | JNull => Throw (destructure_error v k)
  | _ => Ok (opt_member v)
  end.

(** Whether an object has the own property [k]. *)
Definition has_own (k : string) (fields : list (string * jsval)) : bool :=
  existsb (fun kv => (fst kv =? k)%string) fields.

(** The [TypeError] of a conversion that finds no primitive value. *)
Definition not_primitive : exn :=
  Error (s16 "Cannot convert object to primitive value").

(** [ToString], as a template literal applies it.  An array joins its
    elements.  An object decoded from JSON holds no function: with an
    own [toString] property neither that nor [valueOf] yields a
    primitive and the conversion throws; without one
    [Object.prototype.toString] answers. *)
Fixpoint ToString (v : jsval) : result jsstring :=
  match v with
  | JUndefined => Ok (s16 "undefined")
  | JNull => Ok (s16 "null")
  | JBool true => Ok (s16 "true")
  | JBool false => Ok (s16 "false")
  | JNum n => Ok (Z_to_js n)
  | JStr s => Ok s
  | JArr items =>
      (fix join (l : list jsval) : result jsstring :=
         match l with
         | [] => Ok []
         | [x] => if nullish x then Ok [] else ToString x
         | x :: rest =>
             match (if nullish x then Ok [] else ToString x) with
             | Throw e => Throw e
             | Ok a =>
                 match join rest with
                 | Throw e => Throw e
                 | Ok b => Ok (a ++ s16 "," ++ b)
                 end
             end
         end) items
  | JObj fields =>
      if has_own "toString" fields then Throw not_primitive
      else Ok (s16 "[object Object]")
  end.

(** The value [JSON.stringify] writes for an object literal: a
    property whose value is [undefined] is left out. *)
Definition defined (v : jsval) : bool :=
  match v with JUndefined => false | _ => true end.

Definition JSON_stringify (fields : list (string * jsval)) : jsval :=
  JObj (filter (fun kv => defined (snd kv)) fields).

End Js.
Import Js.

(** ** The row store

    The three tables of [deploy-schema.sql] and the operations the
    handlers call on them through the Supabase client.  A call returns
    [{ data, error }]: a row, an error, or neither of the two. *)
Module Store.

(** [PostgrestError] *)
Record pg_error : Type :=
  { pg_message : jsstring; pg_code : jsval; pg_hint : jsval }.

Inductive db_result (A : Type) : Type :=
| DbOk (data : A)
| DbErr (error : pg_error)
| DbNone.
Arguments DbOk {A} data.
Arguments DbErr {A} error.
Arguments DbNone {A}.

(** The [data] of a reply; [None] is [null]. *)
Definition data_of (A : Type) (r : db_result A) : option A :=
  match r with
  | DbOk data => Some data
  | _ => None
  end.

(** [urls] *)
Record url_row : Type :=
  { url_id : Z; url_created_at : jsstring; url_url : jsstring;
    url_caption : option jsstring }.

(** [prompts] *)
Record prompt_row : Type :=
  { prompt_id : Z; prompt_created_at : jsstring; prompt_name : jsstring;
    prompt : jsstring; prompt_description : option jsstring }.

(** [url_summery] *)
Record summery_row : Type :=
  { summery_id : Z; summery_created_at : jsstring;
    summery_url_id : option Z; summery_prompt_id : option Z;
    scraped_data : option jsstring; ai_response : option jsstring }.

Record store : Type :=
  { urls : list url_row; prompts : list prompt_row;
    url_summery : list summery_row }.

(** The object the handlers pass to [from('url_summery').insert]. *)
Record summery_insert : Type :=
  { ins_url_id : jsval; ins_prompt_id : jsval;
    ins_scraped_data : jsstring; ins_ai_response : jsval }.

Inductive db_op : Type :=
| InsertUrls | SelectUrls | SelectPrompts | InsertUrlSummery.

(** How a JSON value is read into a column. *)
Inductive column (A : Type) : Type :=
| Accepted (a : A)
| Refused (error : pg_error).
Arguments Accepted {A} a.
Arguments Refused {A} error.

(** What the store decides on its own: whether a call fails before it
    reaches the tables, or is answered with neither data nor error
    (the tables untouched either way); how a JSON value is read into a
    [BIGINT] or a [TEXT] column (or refused); the value the [BIGSERIAL]
    sequence of a table gives next; the error of a violated key
    constraint, by the constraint's name; and the time [NOW()] gives. *)
Record store_env : Type :=
  { db_fault : db_op -> option pg_error;
    db_silent : db_op -> bool;
    pg_bigint : jsval -> column Z;
    pg_text : jsval -> column jsstring;
    db_serial : db_op -> positive;
    db_violation : string -> pg_error;
    db_now : jsstring }.

(** [.single()] on a result that is not exactly one row. *)
Definition not_single_row : pg_error :=
  {| pg_message := s16 "JSON object requested, multiple (or no) rows returned";
     pg_code := JStr (s16 "PGRST116");
     pg_hint := JNull |}.

(** Whether [n] is the [id] of a row. *)
Definition has_id (n : Z) (ids : list Z) : bool := existsb (Z.eqb n) ids.

(** [.select('*').eq('id', v).single()] *)
Definition select_single (R : Type) (id_of : R -> Z) (e : store_env) (op : db_op)
           (rows : list R) (v : jsval) : db_result R :=
  if db_silent e op then DbNone
  else
    match db_fault e op with
    | Some err => DbErr err
    | None =>
        match pg_bigint e v with
        | Refused err => DbErr err
        | Accepted n =>
            match filter (fun r => (id_of r =? n)%Z) rows with
            | [r] => DbOk r
            | _ => DbErr not_single_row
            end
        end
    end.

Definition select_url (e : store_env) (st : store) (v : jsval) : db_result url_row :=
  select_single url_id e SelectUrls (urls st) v.

Definition select_prompt (e : store_env) (st : store) (v : jsval) : db_result prompt_row :=
  select_single prompt_id e SelectPrompts (prompts st) v.

(** [.from('urls').insert({ url, caption }).select().single()]; [id]
    is the [PRIMARY KEY]. *)
Definition insert_url (e : store_env) (st : store) (url : jsval) (caption : jsstring)
  : db_result url_row * store :=
  if db_silent e InsertUrls then (DbNone, st)
  else
    match db_fault e InsertUrls with
    | Some err => (DbErr err, st)
    | None =>
        match pg_text e url with
        | Refused err => (DbErr err, st)
        | Accepted u =>
            let row := {| url_id := Z.pos (db_serial e InsertUrls);
                          url_created_at := db_now e;
                          url_url := u;
                          url_caption := Some caption |} in
            if has_id (url_id row) (map url_id (urls st)) then
              (DbErr (db_violation e "urls_pkey"), st)
            else
              (DbOk row,
               {| urls := urls st ++ [row]; prompts := prompts st;
                  url_summery := url_summery st |})
        end
    end.

(** [.from('url_summery').insert({...}).select().single()]; [id] is
    the [PRIMARY KEY], [url_id] and [prompt_id] [REFERENCES] the other
    two tables. *)
Definition insert_summery (e : store_env) (st : store) (i : summery_insert)
  : db_result summery_row * store :=
  if db_silent e InsertUrlSummery then (DbNone, st)
  else
    match db_fault e InsertUrlSummery with
    | Some err => (DbErr err, st)
    | None =>
        match pg_bigint e (ins_url_id i), pg_bigint e (ins_prompt_id i),
              pg_text e (ins_ai_response i) with
        | Accepted u, Accepted p, Accepted a =>
            let row := {| summery_id := Z.pos (db_serial e InsertUrlSummery);
                          summery_created_at := db_now e;
                          summery_url_id := Some u;
                          summery_prompt_id := Some p;
                          scraped_data := Some (ins_scraped_data i);
                          ai_response := Some a |} in
            if has_id (summery_id row) (map summery_id (url_summery st)) then
              (DbErr (db_violation e "url_summery_pkey"), st)
            else if negb (has_id u (map url_id (urls st))) then
              (DbErr (db_violation e "url_summery_url_id_fkey"), st)
            else if negb (has_id p (map prompt_id (prompts st))) then
              (DbErr (db_violation e "url_summery_prompt_id_fkey"), st)
            else
              (DbOk row,
               {| urls := urls st; prompts := prompts st;
                  url_summery := url_summery st ++ [row] |})
        | Refused err, _, _ => (DbErr err, st)
        | _, Refused err, _ => (DbErr err, st)
        | _, _, Refused err => (DbErr err, st)
        end
    end.

End Store.
Import Store.

(** ** HTTP *)
Module Http.

(** A [Response] as [fetch] resolves it; [text] and [json] are what
    reading the body gives. *)
Record http_response : Type :=
  { status : Z; statusText : jsstring;
    text : result jsstring; json : result jsval }.

(** [response.ok] *)
Definition ok (r : http_response) : bool :=
  ((200 <=? status r) && (status r <=? 299))%Z.

(** The body of the completion request. *)
Record chat_message : Type := { role : string; content : jsstring }.
Record chat_request : Type :=
  { model : string; messages : list chat_message;
    max_tokens : Z; temperature : Q }.

(** The inbound request: its method and what [await req.json()]
    gives. *)
Record request : Type := { method : string; req_json : result jsval }.

(** The handler's [Response]: [body] is [None] for [new Response(null)],
    and the value serialised by [JSON.stringify] otherwise. *)
Record response : Type :=
  { resp_status : Z; resp_headers : list (string * string);
    resp_body : option jsval }.

End Http.
Import Http.

(** ** The world outside a handler, and the effects of a run *)
Module Effects.

(** Everything a handler reads from outside its own code. *)
Record World : Type :=
  { now_iso : jsstring;                 (* new Date().toISOString() *)
    OPENAI_API_KEY : option jsstring;   (* Deno.env.get('OPENAI_API_KEY') *)
    http_get : jsval -> result http_response;
    openai_chat : jsstring -> chat_request -> result http_response;
    db_env : store_env }.

Inductive level : Type := LLog | LError.

(** One external call of a run, with what it returned. *)
Inductive event : Type :=
| DbInsertUrls (url : jsval) (caption : jsstring) (res : db_result url_row)
| DbSelectUrls (id : jsval) (res : db_result url_row)
| DbSelectPrompts (id : jsval) (res : db_result prompt_row)
| DbInsertUrlSummery (row : summery_insert) (res : db_result summery_row)
| HttpGet (url : jsval) (user_agent : jsstring) (res : result http_response)
| HttpPostCompletion (authorization : jsstring) (body : chat_request)
                     (res : result http_response)
| Console (lvl : level) (args : list jsval).

(** A store call or an outbound network call (a console line is
    neither). *)
Definition is_external (e : event) : bool :=
  match e with Console _ _ => false | _ => true end.

Record state : Type := { db : store; trace : list event }.

(** A handler computation: it reads and writes the store, appends to
    the trace, and ends with a value or a thrown error. *)
Definition M (A : Type) : Type := state -> result A * state.

Definition ret (A : Type) (a : A) : M A := fun s => (Ok a, s).

Definition bind (A B : Type) (m : M A) (k : A -> M B) : M B :=
  fun s =>
    match m s with
    | (Ok a, s') => k a s'
    | (Throw e, s') => (Throw e, s')
    end.

Definition throw (A : Type) (e : exn) : M A := fun s => (Throw e, s).
Arguments throw {A} e.

(** [try { m } catch (e) { h e }] *)
Definition try_catch (A : Type) (m : M A) (h : exn -> M A) : M A :=
  fun s =>
    match m s with
    | (Ok a, s') => (Ok a, s')
    | (Throw e, s') => h e s'
    end.

(** [await p] for a promise already settled. *)
Definition await (A : Type) (r : result A) : M A := fun s => (r, s).

Definition emit (e : event) : M unit :=
  fun s => (Ok tt, {| db := db s; trace := trace s ++ [e] |}).

Definition console_log (args : list jsval) : M unit := emit (Console LLog args).
Definition console_error (args : list jsval) : M unit := emit (Console LError args).

Definition db_insert_urls (w : World) (url : jsval) (caption : jsstring)
  : M (db_result url_row) :=
  fun s =>
    let (r, st) := insert_url (db_env w) (db s) url caption in
    (Ok r, {| db := st; trace := trace s ++ [DbInsertUrls url caption r] |}).

(** [.select('*').eq('id', id).single()].  The client writes [id] into
    the filter of the request with a template literal, so a value that
    cannot be converted makes [.eq] throw before anything is sent. *)
Definition db_select_urls (w : World) (id : jsval) : M (db_result url_row) :=
  fun s =>
    match ToString id with
    | Throw e => (Throw e, s)
    | Ok _ =>
        let r := select_url (db_env w) (db s) id in
        (Ok r, {| db := db s; trace := trace s ++ [DbSelectUrls id r] |})
    end.

Definition db_select_prompts (w : World) (id : jsval) : M (db_result prompt_row) :=
  fun s =>
    match ToString id with
    | Throw e => (Throw e, s)
    | Ok _ =>
        let r := select_prompt (db_env w) (db s) id in
        (Ok r, {| db := db s; trace := trace s ++ [DbSelectPrompts id r] |})
    end.

Definition db_insert_url_summery (w : World) (i : summery_insert)
  : M (db_result summery_row) :=
  fun s =>
    let (r, st) := insert_summery (db_env w) (db s) i in
    (Ok r, {| db := st; trace := trace s ++ [DbInsertUrlSummery i r] |}).

(** [await fetch(url, { headers: { 'User-Agent': ua } })] *)
Definition fetch_get (w : World) (url : jsval) (ua : jsstring) : M http_response :=
  fun s =>
    let r := http_get w url in
    (r, {| db := db s; trace := trace s ++ [HttpGet url ua r] |}).

(** [await fetch('https://api.openai.com/v1/chat/completions', ...)] *)
Definition fetch_completion (w : World) (authorization : jsstring) (body : chat_request)
  : M http_response :=
  fun s =>
    let r := openai_chat w authorization body in
    (r, {| db := db s; trace := trace s ++ [HttpPostCompletion authorization body r] |}).

End Effects.
Import Effects.

Declare Scope js_scope.
Delimit Scope js_scope with js.
Notation "x <- m ;; k" := (bind m (fun x => k))
  (at level 61, m at next level, right associativity) : js_scope.
Notation "m ;; k" := (bind m (fun _ => k))
  (at level 61, right associativity) : js_scope.
Notation "'js' s" := (JStr (s16 s)) (at level 9, s at level 0) : js_scope.

(** ** The two handlers *)
Module Handlers.
Local Open Scope js_scope.
Local Open Scope string_scope.
Local Open Scope list_scope.

Definition LF : char16 := 10%N.

(** The response to a CORS preflight. *)
Definition preflight : response :=
  {| resp_status := 200;
     resp_headers :=
       [("Access-Control-Allow-Origin", "*");
        ("Access-Control-Allow-Methods", "POST, OPTIONS");
        ("Access-Control-Allow-Headers",
         "authorization, x-client-info, apikey, content-type")];
     resp_body := None |}.

(** [new Response(JSON.stringify(obj), { status, headers })] with the
    two headers every JSON response of the handlers carries; a
    response built without [status] has status 200. *)
Definition json_response (status : Z) (obj : list (string * jsval)) : response :=
  {| resp_status := status;
     resp_headers :=
       [("Content-Type", "application/json");
        ("Access-Control-Allow-Origin", "*")];
     resp_body := Some (JSON_stringify obj) |}.

Definition error_val (e : pg_error) : jsval :=
  JObj [("message", JStr (pg_message e)); ("code", pg_code e); ("hint", pg_hint e)].

Definition exn_val (e : exn) : jsval := JObj [("message", JStr (message e))].

Definition opt_str (o : option jsstring) : jsval :=
  match o with Some s => JStr s | None => JNull end.

(** [Deno.env.get(name)]: a string or [undefined]. *)
Definition env_val (o : option jsstring) : jsval :=
  match o with Some s => JStr s | None => JUndefined end.

(** A template literal on a value that is a string or [undefined], and
    on one that is a string or [null]. *)
Definition env_text (o : option jsstring) : jsstring :=
  match o with Some s => s | None => s16 "undefined" end.

Definition opt_text (o : option jsstring) : jsstring :=
  match o with Some s => s | None => s16 "null" end.

(** [data.k] for the [data] of a reply: the row, or the [TypeError] of
    the property read on [null]. *)
Definition row_of (R : Type) (data : option R) (k : string) : result R :=
  match data with
  | Some r => Ok r
  | None => Throw (type_error JNull k)
  end.

Definition user_agent : jsstring :=
  s16 "Mozilla/5.0 (compatible; UrlSummarizerBot/1.0)".

(** The scraping block ([summerize_url] lines 126-167, [process-url]
    lines 129-169).  [inr text] continues the handler with
    [scrapedText = text]; [inl r] is the [return] of the catch
    clause, whose response the two handlers build differently. *)
Definition scrape (w : World) (url : jsval) (failed : exn -> response)
  : M (response + jsstring) :=
  try_catch
    (response <- fetch_get w url user_agent ;;
     if negb (ok response) then
       throw (Error (s16 "HTTP " ++ Z_to_js (status response) ++ s16 ": "
                     ++ statusText response))
     else
       html <- await (text response) ;;
       let scrapedText := extract html in
       console_log [JStr (s16 "Scraped text length: "
                          ++ nat_to_js (List.length scrapedText)
                          ++ s16 " characters")] ;;
       ret (inr scrapedText))
    (fun scrapeError =>
       console_error [js "Scraping error:"; exn_val scrapeError] ;;
       ret (inl (failed scrapeError))).

(** The template literal of the user message. *)
Definition user_content (finalPrompt url scrapedText : jsstring) : jsstring :=
  finalPrompt ++ [LF; LF] ++ s16 "Website URL: " ++ url ++ [LF]
    ++ s16 "Content: " ++ scrapedText.

Definition completion_body (finalPrompt url scrapedText : jsstring) : chat_request :=
  {| model := "gpt-3.5-turbo";
     messages := [{| role := "user";
                     content := user_content finalPrompt url scrapedText |}];
     max_tokens := 500;
     temperature := 7 # 10 |}.

Definition NO_RESPONSE : jsval := js "No response generated".

(** [chatGptData.choices[0]?.message?.content || "No response generated"] *)
Definition first_choice (chatGptData : jsval) : result jsval :=
  match get_member chatGptData "choices" with
  | Throw e => Throw e
  | Ok choices =>
      match get_first choices with
      | Throw e => Throw e
      | Ok choice =>
          Ok (js_or (opt_member (opt_member choice "message") "content") NO_RESPONSE)
      end
  end.

(** The completion call and the reading of its reply (lines 192-222
    of both files). *)
Definition ask_chatgpt (w : World) (openaiApiKey : option jsstring)
           (finalPrompt url scrapedText : jsstring) : M jsval :=
  chatGptResponse <-
    fetch_completion w (s16 "Bearer " ++ env_text openaiApiKey)
      (completion_body finalPrompt url scrapedText) ;;
  if negb (ok chatGptResponse) then
    errorData <- await (text chatGptResponse) ;;
    throw (Error (s16 "ChatGPT API error: " ++ Z_to_js (status chatGptResponse)
                  ++ s16 " - " ++ errorData))
  else
    chatGptData <- await (json chatGptResponse) ;;
    aiResponse <- await (first_choice chatGptData) ;;
    console_log [js "ChatGPT Response:"] ;;
    console_log [js "================"] ;;
    console_log [aiResponse] ;;
    console_log [js "================"] ;;
    ret aiResponse.

(** The [url_summery] insert and its two log lines (lines 225-241 of
    both files).  Without [summeryError] the [else] branch reads
    [summeryData.id], which throws when the reply has no data
    either. *)
Definition save_summery (w : World) (i : summery_insert) : M (db_result summery_row) :=
  r <- db_insert_url_summery w i ;;
  match r with
  | DbErr summeryError =>
      console_error [js "Failed to save to url_summery:"; error_val summeryError] ;;
      ret r
  | _ =>
      summeryData <- await (row_of (data_of r) "id") ;;
      console_log [js "Saved to url_summery table with ID:"; JNum (summery_id summeryData)] ;;
      ret r
  end.

(** [summeryData?.id || null] *)
Definition summery_id_or_null (r : db_result summery_row) : jsval :=
  match data_of r with
  | Some summeryData => js_or (JNum (summery_id summeryData)) JNull
  | None => JNull
  end.

(** [supabase/functions/summerize_url/index.ts] *)
Definition summerize_url (w : World) (req : request) : M response :=
  if method req =? "OPTIONS" then ret preflight
  else
    try_catch
      (body <- await (req_json req) ;;
       fields <- await (destructure body "url") ;;
       let url := fields "url" in
       let prompt_id := fields "prompt_id" in
       if negb (truthy url) then
         ret (json_response 400 [("error", js "URL is required")])
       else if negb (truthy prompt_id) then
         ret (json_response 400 [("error", js "prompt_id is required")])
       else
         let caption := s16 "URL added at " ++ now_iso w in
         ins <- db_insert_urls w url caption ;;
         match ins with
         | DbErr insertError =>
             console_error [js "Database insert error:"; error_val insertError] ;;
             ret (json_response 500
                    [("error", js "Failed to save URL to database");
                     ("details", JStr (pg_message insertError));
                     ("code", pg_code insertError);
                     ("hint", pg_hint insertError)])
         | _ =>
             insertData <- await (row_of (data_of ins) "id") ;;
             console_log [JStr (s16 "URL inserted with ID: "
                                ++ Z_to_js (url_id insertData)
                                ++ s16 ", now processing...")] ;;
             try_catch
               (sel <- db_select_prompts w prompt_id ;;
                match sel with
                | DbErr promptError =>
                    console_error [js "Prompt fetch error:"; error_val promptError] ;;
                    ret (json_response 404
                           [("error", js "Failed to fetch prompt from database");
                            ("details", JStr (pg_message promptError));
                            ("url_id", JNum (url_id insertData))])
                | _ =>
                    url_text <- await (ToString url) ;;
                    console_log [JStr (s16 "Scraping content from: " ++ url_text)] ;;
                    scraped <-
                      scrape w url
                        (fun scrapeError =>
                           json_response 500
                             [("error", js "Failed to scrape URL content");
                              ("details", JStr (message scrapeError));
                              ("url_id", JNum (url_id insertData))]) ;;
                    match scraped with
                    | inl failure => ret failure
                    | inr scrapedText =>
                        let openaiApiKey := OPENAI_API_KEY w in
                        if negb (truthy (env_val openaiApiKey)) then
                          console_log [js "OpenAI API key is missing"] ;;
                          ret (json_response 500
                                 [("error", js "OpenAI API key not configured");
                                  ("url_id", JNum (url_id insertData))])
                        else
                          promptData <- await (row_of (data_of sel) "prompt") ;;
                          let finalPrompt := prompt promptData in
                          console_log [JStr (s16 "Sending to ChatGPT with prompt: "
                                             ++ substring 0 100 finalPrompt
                                             ++ s16 "...")] ;;
                          aiResponse <-
                            ask_chatgpt w openaiApiKey finalPrompt url_text
                              scrapedText ;;
                          saved <-
                            save_summery w
                              {| ins_url_id := JNum (url_id insertData);
                                 ins_prompt_id := prompt_id;
                                 ins_scraped_data := scrapedText;
                                 ins_ai_response := aiResponse |} ;;
                          ret (json_response 200
                                 [("success", JBool true);
                                  ("url_id", JNum (url_id insertData));
                                  ("url", JStr (url_url insertData));
                                  ("summary", aiResponse);
                                  ("prompt_used", JStr (prompt_name promptData));
                                  ("created_at", JStr (url_created_at insertData));
                                  ("processed", JBool true);
                                  ("summery_id", summery_id_or_null saved)])
                    end
                end)
               (fun aiError =>
                  console_error [js "AI processing error:"; exn_val aiError] ;;
                  ret (json_response 500
                         [("error", js "URL saved but AI processing failed");
                          ("details", JStr (message aiError));
                          ("url_id", JNum (url_id insertData));
                          ("url", JStr (url_url insertData));
                          ("created_at", JStr (url_created_at insertData));
                          ("processed", JBool false)]))
         end)
      (fun _ => ret (json_response 400 [("error", js "Invalid request body")])).

(** [supabase/functions/process-url/index.ts] *)
Definition process_url (w : World) (req : request) : M response :=
  if method req =? "OPTIONS" then ret preflight
  else
    try_catch
      (body <- await (req_json req) ;;
       fields <- await (destructure body "url_id") ;;
       let url_id := fields "url_id" in
       let prompt_id := fields "prompt_id" in
       if negb (truthy url_id) then
         ret (json_response 400 [("error", js "url_id is required")])
       else if negb (truthy prompt_id) then
         ret (json_response 400 [("error", js "prompt_id is required")])
       else
         url_id_text <- await (ToString url_id) ;;
         prompt_id_text <- await (ToString prompt_id) ;;
         console_log [JStr (s16 "Processing URL ID: " ++ url_id_text
                            ++ s16 " with Prompt ID: " ++ prompt_id_text)] ;;
         selu <- db_select_urls w url_id ;;
         match selu with
         | DbErr fetchError =>
             console_error [js "Database fetch error:"; error_val fetchError] ;;
             ret (json_response 404
                    [("error", js "Failed to fetch URL from database");
                     ("details", JStr (pg_message fetchError))])
         | _ =>
             selp <- db_select_prompts w prompt_id ;;
             match selp with
             | DbErr promptError =>
                 console_error [js "Prompt fetch error:"; error_val promptError] ;;
                 ret (json_response 404
                        [("error", js "Failed to fetch prompt from database");
                         ("details", JStr (pg_message promptError))])
             | _ =>
                 match data_of selu with
                 | None => ret (json_response 404 [("error", js "URL not found")])
                 | Some urlData =>
                     console_log [JStr (s16 "Found URL: " ++ url_url urlData)] ;;
                     console_log [JStr (s16 "Current caption: "
                                        ++ opt_text (url_caption urlData))] ;;
                     promptData <- await (row_of (data_of selp) "prompt_name") ;;
                     console_log [JStr (s16 "Using prompt: " ++ prompt_name promptData)] ;;
                     console_log [JStr (s16 "Scraping content from: " ++ url_url urlData)] ;;
                     scraped <-
                       scrape w (JStr (url_url urlData))
                         (fun scrapeError =>
                            json_response 500
                              [("error", js "Failed to scrape URL content");
                               ("details", JStr (message scrapeError))]) ;;
                     match scraped with
                     | inl failure => ret failure
                     | inr scrapedText =>
                         let openaiApiKey := OPENAI_API_KEY w in
                         if negb (truthy (env_val openaiApiKey)) then
                           console_log [js "OpenAI API key is missing"] ;;
                           ret (json_response 500
                                  [("error", js "OpenAI API key not configured")])
                         else
                           let finalPrompt := prompt promptData in
                           console_log [JStr (s16 "Sending to ChatGPT with prompt: "
                                              ++ substring 0 100 finalPrompt
                                              ++ s16 "...")] ;;
                           try_catch
                             (aiResponse <-
                                ask_chatgpt w openaiApiKey finalPrompt (url_url urlData)
                                  scrapedText ;;
                              saved <-
                                save_summery w
                                  {| ins_url_id := url_id;
                                     ins_prompt_id := prompt_id;
                                     ins_scraped_data := scrapedText;
                                     ins_ai_response := aiResponse |} ;;
                              ret (json_response 200
                                     [("success", JBool true);
                                      ("url_id", url_id);
                                      ("url", JStr (url_url urlData));
                                      ("original_caption", opt_str (url_caption urlData));
                                      ("scraped_text_length",
                                       JNum (Z.of_nat (List.length scrapedText)));
                                      ("ai_response", aiResponse);
                                      ("prompt_used", JStr finalPrompt);
                                      ("prompt_name", JStr (prompt_name promptData));
                                      ("model", js "gpt-3.5-turbo");
                                      ("summery_id", summery_id_or_null saved)]))
                             (fun aiError =>
                                console_error [js "ChatGPT API error:"; exn_val aiError] ;;
                                ret (json_response 500
                                       [("error", js "Failed to get AI response");
                                        ("details", JStr (message aiError))]))
                     end
                 end
             end
         end)
      (fun error =>
         console_error [js "General error:"; exn_val error] ;;
         ret (json_response 400
                [("error", js "Invalid request body or internal error");
                 ("details", JStr (message error))])).

(** The two entry points. *)
Inductive endpoint : Type := SummerizeUrl | ProcessUrl.

Definition serve (ep : endpoint) : World -> request -> M response :=
  match ep with
  | SummerizeUrl => summerize_url
  | ProcessUrl => process_url
  end.

(** One request served against the store [st]: the response (or the
    error that escaped the handler), the store afterwards and the
    external calls made, in order. *)
Definition run (ep : endpoint) (w : World) (st : store) (req : request)
  : result response * store * list event :=
  let (r, s) := serve ep w req {| db := st; trace := [] |} in
  (r, db s, trace s).

End Handlers.
Import Handlers.

(** ** Properties of extracted text, and the whitespace step written
    out as a scan *)
Module TextProps.

(** [s] holds a [<] that a [>] follows: a piece the tag pattern
    [<[^>]*>] matches. *)
Definition has_tag (s : jsstring) : Prop :=
  exists a b c, s = a ++ LT :: b ++ GT :: c.

(** [s] holds two whitespace characters side by side. *)
Definition has_space_run (s : jsstring) : Prop :=
  exists a c d b, s = a ++ c :: d :: b /\ is_space c = true /\ is_space d = true.

Definition starts_with_space (s : jsstring) : bool :=
  match s with
  | c :: _ => is_space c
  | [] => false
  end.

Definition ends_with_space (s : jsstring) : bool := starts_with_space (rev s).

(** No whitespace character is followed by another, and every one is
    the plain space. *)
Fixpoint spaces_normal (s : jsstring) : bool :=
  match s with
  | [] => true
  | c :: s' =>
      (negb (is_space c) || ((c =? SP)%N && negb (starts_with_space s')))
      && spaces_normal s'
  end.

Fixpoint leading_spaces (s : jsstring) : nat :=
  match s with
  | c :: s' => if is_space c then S (leading_spaces s') else 0
  | [] => 0
  end.

(** Step (4) as a left-to-right scan: the first character of a run of
    whitespace becomes one space, the others are dropped.  [in_run]
    says the previous character was whitespace. *)
Fixpoint collapse_ws (in_run : bool) (s : jsstring) : jsstring :=
  match s with
  | [] => []
  | c :: s' =>
      if is_space c then
        if in_run then collapse_ws true s' else SP :: collapse_ws true s'
      else c :: collapse_ws false s'
  end.

(** [t] is a contiguous piece of [s]. *)
Definition infix (t s : jsstring) : Prop := exists pre post, s = pre ++ t ++ post.

End TextProps.
Import TextProps.

(** ** What a claim observes of a request and of a run *)
Module Observe.
Local Open Scope string_scope.

(** The member [k] of a JSON response body; [JUndefined] when the
    body has none. *)
Definition body_field (k : string) (r : response) : jsval :=
  match resp_body r with
  | Some (JObj fields) => lookup k fields
  | _ => JUndefined
  end.

Fixpoint header (k : string) (hs : list (string * string)) : option string :=
  match hs with
  | [] => None
  | (k', v) :: rest => if k' =? k then Some v else header k rest
  end.

(** The member [k] of the request body as the handler reads it. *)
Definition req_field (k : string) (req : request) : jsval :=
  match req_json req with
  | Ok body => match get_member body k with Ok v => v | Throw _ => JUndefined end
  | Throw _ => JUndefined
  end.

(** Whether a template literal can convert [v] to a string. *)
Definition converts (v : jsval) : bool :=
  match ToString v with
  | Ok _ => true
  | Throw _ => false
  end.

(** The request fields each endpoint requires. *)
Definition required_fields (ep : endpoint) : list string :=
  match ep with
  | SummerizeUrl => ["url"; "prompt_id"]
  | ProcessUrl => ["url_id"; "prompt_id"]
  end.

(** The response member that carries the model output. *)
Definition output_field (ep : endpoint) : string :=
  match ep with
  | SummerizeUrl => "summary"
  | ProcessUrl => "ai_response"
  end.

Definition remove_field (k : string) (fields : list (string * jsval))
  : list (string * jsval) :=
  filter (fun kv => negb (fst kv =? k)) fields.

(** [urow] is the URL record the run works on and [id] the value the
    handler reports for it: the row the run inserted (Ingest-and-
    Analyze) or the row it read (Analyze-Existing). *)
Definition url_committed (ep : endpoint) (tr : list event) (id : jsval)
           (urow : url_row) : Prop :=
  match ep with
  | SummerizeUrl =>
      id = JNum (url_id urow)
      /\ exists url caption, In (DbInsertUrls url caption (DbOk urow)) tr
  | ProcessUrl => In (DbSelectUrls id (DbOk urow)) tr
  end.

(** The URL the run fetches: the request's [url], or the stored one. *)
Definition fetched_url (ep : endpoint) (req : request) (tr : list event)
           (url : jsval) : Prop :=
  match ep with
  | SummerizeUrl => url = req_field "url" req
  | ProcessUrl =>
      exists urow, In (DbSelectUrls (req_field "url_id" req) (DbOk urow)) tr
                   /\ url = JStr (url_url urow)
  end.

End Observe.
Import Observe.

(** ** Concrete inputs used by the examples below *)
Module Fixtures.

(** 7999 letters [a], a space and a [b]: one character over the
    limit, the space being the 8000th. *)
Definition long_text : jsstring := repeat 97%N 7999 ++ s16 " b".

Local Open Scope js_scope.
Local Open Scope string_scope.

Definition invalid_input : pg_error :=
  {| pg_message := s16 "invalid input syntax";
     pg_code := js "22P02";
     pg_hint := JNull |}.

Definition unreachable : pg_error :=
  {| pg_message := s16 "TypeError: error sending request";
     pg_code := js "";
     pg_hint := js "" |}.

Definition key_violation (constraint : string) : pg_error :=
  {| pg_message := (s16 "violates constraint " ++ s16 constraint)%list;
     pg_code := js "23000";
     pg_hint := JNull |}.

(** A store that takes numbers for [BIGINT] and strings for [TEXT],
    and whose sequences stand at 2 for [urls] and at 1 for
    [url_summery]. *)
Definition demo_env : store_env :=
  {| db_fault := fun _ => None;
     db_silent := fun _ => false;
     pg_bigint := fun v => match v with JNum n => Accepted n | _ => Refused invalid_input end;
     pg_text := fun v => match v with JStr s => Accepted s | _ => Refused invalid_input end;
     db_serial := fun op => match op with InsertUrls => 2%positive | _ => 1%positive end;
     db_violation := key_violation;
     db_now := s16 "2025-01-01T00:00:00+00:00" |}.

(** The same store, except that every [url_summery] insert fails. *)
Definition failing_summery_env : store_env :=
  {| db_fault := fun op => match op with InsertUrlSummery => Some unreachable | _ => None end;
     db_silent := db_silent demo_env;
     pg_bigint := pg_bigint demo_env;
     pg_text := pg_text demo_env;
     db_serial := db_serial demo_env;
     db_violation := db_violation demo_env;
     db_now := db_now demo_env |}.

Definition demo_page : jsstring :=
  s16 "<html><body><script>x</script>Hello <b>World</b></body></html>".

Definition page_response : http_response :=
  {| status := 200; statusText := s16 "OK";
     text := Ok demo_page;
     json := Throw (Error (s16 "Unexpected token '<'")) |}.

(** A completion reply whose decoded body is [data]. *)
Definition completion_response (data : jsval) : http_response :=
  {| status := 200; statusText := s16 "OK";
     text := Ok (s16 "(body)");
     json := Ok data |}.

(** [{ choices: [{ message: { content } }] }] *)
Definition completion_of (content : jsval) : jsval :=
  JObj [("choices", JArr [JObj [("message", JObj [("content", content)])]])].

Definition world_with (e : store_env) (data : jsval) : World :=
  {| now_iso := s16 "2025-01-01T00:00:00.000Z";
     OPENAI_API_KEY := Some (s16 "sk-test");
     http_get := fun _ => Ok page_response;
     openai_chat := fun _ _ => Ok (completion_response data);
     db_env := e |}.

Definition demo_world : World :=
  world_with demo_env (completion_of (js "A short page.")).

Definition summary_prompt : prompt_row :=
  {| prompt_id := 1; prompt_created_at := s16 "2024-12-31T00:00:00+00:00";
     prompt_name := s16 "General Summary";
     prompt := s16 "Please provide a concise summary of this webpage.";
     prompt_description := None |}.

Definition example_row : url_row :=
  {| url_id := 1; url_created_at := s16 "2024-12-31T00:00:00+00:00";
     url_url := s16 "https://example.com";
     url_caption := Some (s16 "URL added at 2024-12-31T00:00:00.000Z") |}.

Definition demo_store : store :=
  {| urls := [example_row]; prompts := [summary_prompt]; url_summery := [] |}.

Definition post (fields : list (string * jsval)) : request :=
  {| method := "POST"; req_json := Ok (JObj fields) |}.

(** [POST {"url":"https://example.com","prompt_id":1}] *)
Definition ingest_request : request :=
  post [("url", js "https://example.com"); ("prompt_id", JNum 1)].

(** [POST {"url_id":1,"prompt_id":1}] *)
Definition analyze_request : request :=
  post [("url_id", JNum 1); ("prompt_id", JNum 1)].

(** [OPTIONS], with no body to read. *)
Definition preflight_request : request :=
  {| method := "OPTIONS";
     req_json := Throw (Error (s16 "Unexpected end of JSON input")) |}.

(** [POST {"url":"https://example.com","prompt_id":7}]: no prompt has
    identifier 7. *)
Definition missing_prompt_request : request :=
  post [("url", js "https://example.com"); ("prompt_id", JNum 7)].

(** [POST {"url_id":999,"prompt_id":1}]: no URL has identifier 999. *)
Definition unknown_url_request : request :=
  post [("url_id", JNum 999); ("prompt_id", JNum 1)].

(** [POST {"url_id":999}] *)
Definition unknown_url_no_prompt_request : request :=
  post [("url_id", JNum 999)].

(** The row the store creates for [ingest_request] in [demo_store]. *)
Definition new_row : url_row :=
  {| url_id := 2; url_created_at := s16 "2025-01-01T00:00:00+00:00";
     url_url := s16 "https://example.com";
     url_caption := Some (s16 "URL added at 2025-01-01T00:00:00.000Z") |}.

Definition failing_world : World :=
  world_with failing_summery_env (completion_of (js "A short page.")).

(** The [url_summery] insert of [ingest_request]. *)
Definition summery_of_ingest : summery_insert :=
  {| ins_url_id := JNum 2; ins_prompt_id := JNum 1;
     ins_scraped_data := s16 "Hello World";
     ins_ai_response := js "A short page." |}.

(** A completion reply whose first choice has the empty string as
    content, and one whose body is [{}]. *)
Definition empty_content_world : World :=
  world_with demo_env (completion_of (JStr [])).
Definition no_choices_world : World := world_with demo_env (JObj []).

(** The completion request of [ingest_request] and [analyze_request]. *)
Definition demo_completion_body : chat_request :=
  completion_body (prompt summary_prompt) (s16 "https://example.com")
    (s16 "Hello World").

End Fixtures.
Import Fixtures.

(** ** The regular-expression steps as scans *)
Module Scan.
Local Open Scope string_scope.
Local Open Scope list_scope.
Local Open Scope js_scope.

(** Two characters that are the same letter, case apart. *)
Definition eq_ci (a b : char16) : bool :=
  (canonicalize true a =? canonicalize true b)%N.

(** [s] starts with [p], letter case apart. *)
Fixpoint prefix_ci (p s : jsstring) : bool :=
  match p, s with
  | [], _ => true
  | x :: p', c :: s' => eq_ci x c && prefix_ci p' s'
  | _ :: _, [] => false
  end.

(** The number of characters up to and including the first [>]. *)
Fixpoint through_gt (s : jsstring) : option nat :=
  match s with
  | [] => None
  | c :: s' => if (c =? GT)%N then Some 1 else option_map S (through_gt s')
  end.

(** The number of characters up to and including the first occurrence
    of [p], letter case apart. *)
Fixpoint through_ci (p s : jsstring) : option nat :=
  if prefix_ci p s then Some (List.length p)
  else
    match s with
    | [] => None
    | _ :: s' => option_map S (through_ci p s')
    end.

(** The length of the block that starts [s], if one does: [<name],
    anything up to the next [>], anything up to the next [</name>]. *)
Definition block_length (name : string) (s : jsstring) : option nat :=
  let opening := s16 ("<" ++ name) in
  let closing := s16 ("</" ++ name ++ ">") in
  if prefix_ci opening s then
    match through_gt (skipn (List.length opening) s) with
    | Some j =>
        match through_ci closing (skipn (List.length opening + j) s) with
        | Some m => Some (List.length opening + j + m)
        | None => None
        end
    | None => None
    end
  else None.

(** Steps (1) and (2): left to right, drop each block met; [skip]
    counts the characters of the current block still to be dropped. *)
Fixpoint remove_blocks (name : string) (skip : nat) (s : jsstring) : jsstring :=
  match s with
  | [] => []
  | c :: s' =>
      match skip with
      | S k => remove_blocks name k s'
      | O =>
          match block_length name s with
          | Some (S n) => remove_blocks name n s'
          | _ => c :: remove_blocks name 0 s'
          end
      end
  end.

(** Step (3): left to right, drop each [<] together with everything up
    to the next [>]; a [<] that no [>] follows stays. *)
Fixpoint remove_tags (skip : nat) (s : jsstring) : jsstring :=
  match s with
  | [] => []
  | c :: s' =>
      match skip with
      | S k => remove_tags k s'
      | O =>
          if (c =? LT)%N then
            match through_gt s' with
            | Some j => remove_tags j s'
            | None => c :: remove_tags 0 s'
            end
          else c :: remove_tags 0 s'
      end
  end.

(** The six steps, each as the scan above. *)
Definition extract_scan (html : jsstring) : jsstring :=
  firstn 8000
    (trim (collapse_ws false
             (remove_tags 0 (remove_blocks "style" 0 (remove_blocks "script" 0 html))))).

(** The pattern that matches the characters of [q] one after the other. *)
Definition lits (q : jsstring) : regex := map (fun c => (Chr c, Once)) q.

End Scan.
Import Scan.


(** ** The calls of a run, by kind *)
Module Calls.
Local Open Scope string_scope.
Local Open Scope list_scope.
Local Open Scope js_scope.

Inductive call : Type :=
| CInsertUrls | CSelectUrls | CSelectPrompts | CHttpGet | CCompletion
| CInsertUrlSummery.

Definition kind (e : event) : option call :=
  match e with
  | DbInsertUrls _ _ _ => Some CInsertUrls
  | DbSelectUrls _ _ => Some CSelectUrls
  | DbSelectPrompts _ _ => Some CSelectPrompts
  | DbInsertUrlSummery _ _ => Some CInsertUrlSummery
  | HttpGet _ _ _ => Some CHttpGet
  | HttpPostCompletion _ _ _ => Some CCompletion
  | Console _ _ => None
  end.

(** The store and network calls of a trace, in order. *)
Fixpoint calls (tr : list event) : list call :=
  match tr with
  | [] => []
  | e :: tr' =>
      match kind e with
      | Some c => c :: calls tr'
      | None => calls tr'
      end
  end.

(** The calls of a complete run of each endpoint. *)
Definition pipeline (ep : endpoint) : list call :=
  match ep with
  | SummerizeUrl => [CInsertUrls; CSelectPrompts; CHttpGet; CCompletion; CInsertUrlSummery]
  | ProcessUrl => [CSelectUrls; CSelectPrompts; CHttpGet; CCompletion; CInsertUrlSummery]
  end.

(** The rows the successful inserts of a trace created. *)
Fixpoint inserted_urls (tr : list event) : list url_row :=
  match tr with
  | [] => []
  | DbInsertUrls _ _ (DbOk row) :: tr' => row :: inserted_urls tr'
  | _ :: tr' => inserted_urls tr'
  end.

Fixpoint inserted_summeries (tr : list event) : list summery_row :=
  match tr with
  | [] => []
  | DbInsertUrlSummery _ (DbOk row) :: tr' => row :: inserted_summeries tr'
  | _ :: tr' => inserted_summeries tr'
  end.

(** What the scraping block makes of the reply to its [fetch]: the
    page text, or the error its [catch] clause receives
    ([summerize_url] lines 134-138, [process-url] lines 137-141). *)
Definition page_text (res : result http_response) : result jsstring :=
  match res with
  | Throw e => Throw e
  | Ok page =>
      if negb (ok page) then
        Throw (Error (s16 "HTTP " ++ Z_to_js (status page) ++ s16 ": " ++ statusText page))
      else text page
  end.

(** What the handlers make of the reply to the completion call: the
    model output, or the error their [catch] clause receives (lines
    211-217 of both files). *)
Definition completion_output (res : result http_response) : result jsval :=
  match res with
  | Throw e => Throw e
  | Ok reply =>
      if negb (ok reply) then
        match text reply with
        | Throw e => Throw e
        | Ok errorData =>
            Throw (Error (s16 "ChatGPT API error: " ++ Z_to_js (status reply)
                          ++ s16 " - " ++ errorData))
        end
      else
        match json reply with
        | Throw e => Throw e
        | Ok chatGptData => first_choice chatGptData
        end
  end.

(** The [error] text of the response to a failed completion call. *)
Definition completion_failure_text (ep : endpoint) : jsstring :=
  match ep with
  | SummerizeUrl => s16 "URL saved but AI processing failed"
  | ProcessUrl => s16 "Failed to get AI response"
  end.

End Calls.
Import Calls.

(** ** Requests a handler cannot read *)
Module Unreadable.
Local Open Scope string_scope.
Local Open Scope list_scope.
Local Open Scope js_scope.

(** The body cannot be destructured: [req.json()] rejects, or gives
    [null] ([undefined] cannot come out of JSON). *)
Definition unreadable (req : request) : bool :=
  match req_json req with
  | Throw _ => true
  | Ok body => nullish body
  end.

(** The error the outer [catch] clause receives for such a request. *)
Definition read_error (req : request) (k : string) : exn :=
  match req_json req with
  | Throw e => e
  | Ok body => destructure_error body k
  end.

End Unreadable.
Import Unreadable.

(** ** The React components that call the handlers

    An event handler of a component reads the state of the render it
    was created in and queues state updates; the model gives the
    calls it makes, in order ([set...] of [useState], the Supabase
    client, the callbacks of the props, the console) and how its
    promise settles.  The setters, the callbacks and the console are
    taken not to throw. *)
Module Client.
Local Open Scope string_scope.
Local Open Scope list_scope.
Local Open Scope js_scope.

(** What [await supabase.functions.invoke(...)] and an awaited query
    give: the promise resolves with [{ data, error }], or rejects. *)
Inductive invoked : Type :=
| Resolved (data error : jsval)
| Rejected (err : jsval).

(** How the promise of an [async] handler settles. *)
Inductive settled : Type :=
| Fulfilled
| RejectedWith (e : exn).

(** The request [functions.invoke(name, { body })] sends for an object
    [body]: a [POST] whose JSON decodes to [body]. *)
Definition invoke_request (body : jsval) : request :=
  {| method := "POST"; req_json := Ok body |}.

(** [obj[key]] on an object used as a map from numbers. *)
Fixpoint select (key : Z) (obj : list (Z * jsval)) : jsval :=
  match obj with
  | [] => JUndefined
  | (k, v) :: rest => if (k =? key)%Z then v else select key rest
  end.

(** [obj[key] = v] *)
Fixpoint assign (key : Z) (v : jsval) (obj : list (Z * jsval)) : list (Z * jsval) :=
  match obj with
  | [] => [(key, v)]
  | (k, v') :: rest =>
      if (k =? key)%Z then (k, v) :: rest else (k, v') :: assign key v rest
  end.

End Client.
Import Client.

(** [url-summarizer/src/components/EnteredURL.tsx] *)
Module EnteredURL.
Local Open Scope js_scope.
Local Open Scope string_scope.
Local Open Scope list_scope.

(** Whether each optional callback was passed. *)
Record props : Type := { onSummaryReceived : bool; onUrlProcessed : bool }.

Record form : Type :=
  { url : jsstring; loading : bool; summary : jsval; error : jsval;
    selectedPromptId : jsval }.

Inductive action : Type :=
| SetUrl (v : jsstring)
| SetLoading (b : bool)
| SetSummary (v : jsval)
| SetError (v : jsval)
| SetSelectedPromptId (v : jsval)
| Invoke (name : string) (body : jsval)
| OnSummaryReceived (v : jsval)
| OnUrlProcessed
| ConsoleError (args : list jsval).

(** The state after a queued update. *)
Definition update (f : form) (a : action) : form :=
  match a with
  | SetUrl v =>
      {| url := v; loading := loading f; summary := summary f; error := error f;
         selectedPromptId := selectedPromptId f |}
  | SetLoading b =>
      {| url := url f; loading := b; summary := summary f; error := error f;
         selectedPromptId := selectedPromptId f |}
  | SetSummary v =>
      {| url := url f; loading := loading f; summary := v; error := error f;
         selectedPromptId := selectedPromptId f |}
  | SetError v =>
      {| url := url f; loading := loading f; summary := summary f; error := v;
         selectedPromptId := selectedPromptId f |}
  | SetSelectedPromptId v =>
      {| url := url f; loading := loading f; summary := summary f; error := error f;
         selectedPromptId := v |}
  | _ => f
  end.

Definition render (f : form) (acts : list action) : form := fold_left update acts f.

(** The [catch] clause of [handleSummarize] (lines 96-98). *)
Definition failed (err : jsval) : list action * settled :=
  match get_member err "message" with
  | Throw e => ([], RejectedWith e)
  | Ok m =>
      ([SetError (js_or m (js "Failed to process URL"));
        ConsoleError [js "Error calling edge function:"; err]],
       Fulfilled)
  end.

(** [handleSummarize] (lines 52-102). *)
Definition handleSummarize (p : props) (f : form) (invoke : string -> jsval -> invoked)
  : list action * settled :=
  if negb (truthy (JStr (trim (url f)))) then
    ([SetError (js "Please enter a valid URL")], Fulfilled)
  else if negb (truthy (selectedPromptId f)) then
    ([SetError (js "Please select a prompt")], Fulfilled)
  else
    let body := JObj [("url", JStr (trim (url f))); ("prompt_id", selectedPromptId f)] in
    let (acts, end_) :=
      match invoke "summerize_url" body with
      | Rejected err => failed err
      | Resolved data functionError =>
          if truthy functionError then failed functionError
          else
            ((if truthy (opt_member data "processed") then
                let summaryResult :=
                  js_or (opt_member data "summary") (js "URL processed successfully!") in
                SetSummary summaryResult
                  :: (if onSummaryReceived p then [OnSummaryReceived summaryResult] else [])
              else [SetSummary (js "URL added successfully!")])
             ++ [SetUrl []]
             ++ (if onUrlProcessed p then [OnUrlProcessed] else []),
             Fulfilled)
      end in
    ([SetLoading true; SetError (js ""); SetSummary (js "");
      Invoke "summerize_url" body]
       ++ acts ++ [SetLoading false],
     end_).

(** The [disabled] attribute of the button (line 137). *)
Definition button_disabled (f : form) : bool :=
  loading f || negb (truthy (JStr (trim (url f)))) || negb (truthy (selectedPromptId f)).

(** The [Invoke] calls among the actions. *)
Fixpoint invocations (acts : list action) : list (string * jsval) :=
  match acts with
  | [] => []
  | Invoke name body :: rest => (name, body) :: invocations rest
  | _ :: rest => invocations rest
  end.

End EnteredURL.

(** [url-summarizer/src/components/UrlList.tsx] *)
Module UrlList.
Local Open Scope js_scope.
Local Open Scope string_scope.
Local Open Scope list_scope.

Inductive action : Type :=
| SetProcessingId (v : option Z)
| SetError (v : jsval)
| SetResults (v : jsval)
| Invoke (name : string) (body : jsval)
| FetchSummaries
| ConsoleError (args : list jsval).

(** The [catch] clause of [processUrl] (lines 140-142). *)
Definition failed (err : jsval) : list action * settled :=
  match get_member err "message" with
  | Throw e => ([], RejectedWith e)
  | Ok m =>
      match ToString m with
      | Throw e => ([], RejectedWith e)
      | Ok text =>
          ([SetError (JStr (s16 "Failed to process URL: " ++ text));
            ConsoleError [js "Error processing URL:"; err]],
           Fulfilled)
      end
  end.

(** [processUrl] (lines 111-146).  The test of the selected prompt
    stands inside the [try], so its [return] runs the [finally]
    clause too. *)
Definition processUrl (selectedPrompts : list (Z * jsval)) (urlId : Z)
           (invoke : string -> jsval -> invoked) : list action * settled :=
  let selectedPromptId := select urlId selectedPrompts in
  let (acts, end_) :=
    if negb (truthy selectedPromptId) then
      ([SetError (js "Please select a prompt for this URL first")], Fulfilled)
    else
      let body := JObj [("url_id", JNum urlId); ("prompt_id", selectedPromptId)] in
      let (acts, end_) :=
        match invoke "process-url" body with
        | Rejected err => failed err
        | Resolved data functionError =>
            if truthy functionError then failed functionError
            else ([SetResults data; FetchSummaries], Fulfilled)
        end in
      ([SetProcessingId (Some urlId); SetError (js ""); SetResults JNull;
        Invoke "process-url" body] ++ acts,
       end_) in
  (acts ++ [SetProcessingId None], end_).

(** The [disabled] attribute of the Analyze button of a URL (line 254). *)
Definition button_disabled (processingId : option Z) (selectedPrompts : list (Z * jsval))
           (urlId : Z) : bool :=
  match processingId with
  | Some id => (id =? urlId)%Z
  | None => false
  end
  || negb (truthy (select urlId selectedPrompts)).

Fixpoint invocations (acts : list action) : list (string * jsval) :=
  match acts with
  | [] => []
  | Invoke name body :: rest => (name, body) :: invocations rest
  | _ :: rest => invocations rest
  end.

(** The state update of [fetchPrompts] (lines 94-102): every URL
    without a selection gets the first prompt. *)
Definition auto_select (urlIds : list Z) (firstPromptId : jsval) (prev : list (Z * jsval))
  : list (Z * jsval) :=
  fold_left
    (fun newSelected id =>
       if negb (truthy (select id newSelected)) then assign id firstPromptId newSelected
       else newSelected)
    urlIds prev.

(** [truncateUrl] (lines 192-194), for a [maxLength] that is a
    non-negative integer. *)
Definition truncateUrl (url : jsstring) (maxLength : nat) : jsstring :=
  if (maxLength <? List.length url)%nat then substring 0 maxLength url ++ s16 "..."
  else url.

End UrlList.

(** [url-summarizer/src/components/PromptsPage.tsx] *)
Module PromptsPage.
Local Open Scope js_scope.
Local Open Scope string_scope.
Local Open Scope list_scope.

(** The three text fields of a prompt as the add form holds them and
    as the store receives them. *)
Record fields : Type :=
  { prompt_name : jsstring; prompt : jsstring; description : jsstring }.

(** A row of [prompts] as the page holds it; [description] is the one
    column that may be [NULL]. *)
Record row : Type :=
  { id : Z; row_name : jsstring; row_prompt : jsstring;
    row_description : option jsstring }.

Inductive action : Type :=
| SetError (v : jsval)
| SetFormData (d : fields)
| SetShowAddForm (b : bool)
| SetEditingId (v : option Z)
| Insert (d : fields)
| Update (id : Z) (d : fields)
| FetchPrompts
| ConsoleError (args : list jsval).

(** The [catch] clauses (lines 86-89 and 119-122). *)
Definition failed (verb gerund : string) (err : jsval) : list action * settled :=
  match get_member err "message" with
  | Throw e => ([], RejectedWith e)
  | Ok m =>
      match ToString m with
      | Throw e => ([], RejectedWith e)
      | Ok text =>
          ([SetError (JStr (s16 "Failed to " ++ s16 verb ++ s16 " prompt: " ++ text));
            ConsoleError [JStr (s16 "Error " ++ s16 gerund ++ s16 " prompt:"); err]],
           Fulfilled)
      end
  end.

(** [handleAddPrompt] (lines 62-90). *)
Definition handleAddPrompt (formData : fields) (insert : fields -> invoked)
  : list action * settled :=
  if negb (truthy (JStr (trim (prompt_name formData))))
     || negb (truthy (JStr (trim (prompt formData)))) then
    ([SetError (js "Prompt name and prompt text are required")], Fulfilled)
  else
    let sent := {| prompt_name := trim (prompt_name formData);
                   prompt := trim (prompt formData);
                   description := trim (description formData) |} in
    let (acts, end_) :=
      match insert sent with
      | Rejected err => failed "add" "adding" err
      | Resolved _ error =>
          if truthy error then failed "add" "adding" error
          else
            ([SetFormData {| prompt_name := []; prompt := []; description := [] |};
              SetShowAddForm false; FetchPrompts],
             Fulfilled)
      end in
    ([SetError (js ""); Insert sent] ++ acts, end_).

(** [handleUpdatePrompt] (lines 93-123).  The object passed to
    [update] is built inside the [try]: a [description] that is [null]
    makes [prompt.description.trim()] throw before the call is sent. *)
Definition handleUpdatePrompt (prompts : list row) (id_ : Z)
           (update : Z -> fields -> invoked) : list action * settled :=
  match find (fun p => (id p =? id_)%Z) prompts with
  | None => ([], Fulfilled)
  | Some p =>
      if negb (truthy (JStr (trim (row_name p))))
         || negb (truthy (JStr (trim (row_prompt p)))) then
        ([SetError (js "Prompt name and prompt text are required")], Fulfilled)
      else
        let (acts, end_) :=
          match row_description p with
          | None => failed "update" "updating" (exn_val (type_error JNull "trim"))
          | Some d =>
              let sent := {| prompt_name := trim (row_name p);
                             prompt := trim (row_prompt p);
                             description := trim d |} in
              let (acts, end_) :=
                match update id_ sent with
                | Rejected err => failed "update" "updating" err
                | Resolved _ error =>
                    if truthy error then failed "update" "updating" error
                    else ([SetEditingId None; FetchPrompts], Fulfilled)
                end in
              (Update id_ sent :: acts, end_)
          end in
        (SetError (js "") :: acts, end_)
  end.

(** The rows a call of either handler sends to the store. *)
Fixpoint written (acts : list action) : list fields :=
  match acts with
  | [] => []
  | Insert d :: rest => d :: written rest
  | Update _ d :: rest => d :: written rest
  | _ :: rest => written rest
  end.

End PromptsPage.

(** ** Text as the prompt forms send it *)
Module Sent.
Local Open Scope string_scope.
Local Open Scope list_scope.
Local Open Scope js_scope.

(** The name and the text are not empty, and no field starts or ends
    with whitespace. *)
Definition clean (d : PromptsPage.fields) : Prop :=
  PromptsPage.prompt_name d <> [] /\ PromptsPage.prompt d <> []
  /\ forall s,
       In s [PromptsPage.prompt_name d; PromptsPage.prompt d; PromptsPage.description d] ->
       starts_with_space s = false /\ ends_with_space s = false.

End Sent.
Import Sent.

(** ** More concrete inputs *)
Module Scenarios.
Local Open Scope string_scope.
Local Open Scope list_scope.
Local Open Scope js_scope.

(** [demo_world] without an API key. *)
Definition keyless_world : World :=
  {| now_iso := now_iso demo_world;
     OPENAI_API_KEY := None;
     http_get := http_get demo_world;
     openai_chat := openai_chat demo_world;
     db_env := demo_env |}.

Definition not_found : http_response :=
  {| status := 404; statusText := s16 "Not Found";
     text := Ok [];
     json := Throw (Error (s16 "Unexpected end of JSON input")) |}.

(** [demo_world] with every page missing. *)
Definition not_found_world : World :=
  {| now_iso := now_iso demo_world;
     OPENAI_API_KEY := OPENAI_API_KEY demo_world;
     http_get := fun _ => Ok not_found;
     openai_chat := openai_chat demo_world;
     db_env := demo_env |}.

(** [POST {"url":5,"prompt_id":1}]: the [TEXT] column of [demo_env]
    refuses a number. *)
Definition number_url_request : request :=
  post [("url", JNum 5); ("prompt_id", JNum 1)].

(** [demo_world] with a store that answers every [url_summery] insert
    with neither data nor error. *)
Definition silent_summery_world : World :=
  {| now_iso := now_iso demo_world;
     OPENAI_API_KEY := OPENAI_API_KEY demo_world;
     http_get := http_get demo_world;
     openai_chat := openai_chat demo_world;
     db_env :=
       {| db_fault := db_fault demo_env;
          db_silent := fun op => match op with InsertUrlSummery => true | _ => false end;
          pg_bigint := pg_bigint demo_env;
          pg_text := pg_text demo_env;
          db_serial := db_serial demo_env;
          db_violation := db_violation demo_env;
          db_now := db_now demo_env |} |}.

(** A [POST] whose body is [null]. *)
Definition null_request : request :=
  {| method := "POST"; req_json := Ok JNull |}.

(** A [POST] whose body is not JSON. *)
Definition garbled_request : request :=
  {| method := "POST";
     req_json := Throw (Error (s16 "Unexpected token 'h', ...is not valid JSON")) |}.

(** The [url_summery] row the store creates for [ingest_request] in
    [demo_store], and the insert and the row of [analyze_request]. *)
Definition summery_row_of_ingest : summery_row :=
  {| summery_id := 1; summery_created_at := s16 "2025-01-01T00:00:00+00:00";
     summery_url_id := Some 2%Z; summery_prompt_id := Some 1%Z;
     scraped_data := Some (s16 "Hello World");
     ai_response := Some (s16 "A short page.") |}.

Definition summery_of_analyze : summery_insert :=
  {| ins_url_id := JNum 1; ins_prompt_id := JNum 1;
     ins_scraped_data := s16 "Hello World";
     ins_ai_response := js "A short page." |}.

Definition summery_row_of_analyze : summery_row :=
  {| summery_id := 1; summery_created_at := s16 "2025-01-01T00:00:00+00:00";
     summery_url_id := Some 1%Z; summery_prompt_id := Some 1%Z;
     scraped_data := Some (s16 "Hello World");
     ai_response := Some (s16 "A short page.") |}.

(** The form with a URL typed between spaces and the first prompt
    selected, and the form with spaces only. *)
Definition typed_form : EnteredURL.form :=
  {| EnteredURL.url := s16 "  https://example.com ";
     EnteredURL.loading := false;
     EnteredURL.summary := js "";
     EnteredURL.error := js "";
     EnteredURL.selectedPromptId := JNum 1 |}.

Definition blank_form : EnteredURL.form :=
  {| EnteredURL.url := s16 "   ";
     EnteredURL.loading := false;
     EnteredURL.summary := js "";
     EnteredURL.error := js "";
     EnteredURL.selectedPromptId := JNum 1 |}.

Definition both_callbacks : EnteredURL.props :=
  {| EnteredURL.onSummaryReceived := true; EnteredURL.onUrlProcessed := true |}.

(** An edge function that answers every call with a summary. *)
Definition answered (name : string) (body : jsval) : invoked :=
  Resolved (JObj [("processed", JBool true); ("summary", js "A short page.")]) JNull.

(** A prompt row without description, and a store call that succeeds. *)
Definition undescribed : PromptsPage.row :=
  {| PromptsPage.id := 1;
     PromptsPage.row_name := s16 "General Summary";
     PromptsPage.row_prompt := s16 "Summarize this page.";
     PromptsPage.row_description := None |}.

Definition updated (id : Z) (d : PromptsPage.fields) : invoked := Resolved JNull JNull.

End Scenarios.
Import Scenarios.

(* ================================================================== *)
(** * Part II.  Lemmas                                                  *)
(* ================================================================== *)

Unset Implicit Arguments.

(** ** Strings *)

Lemma drop_while_suffix (p : char16 -> bool) (s : jsstring) :
  exists pre, s = pre ++ drop_while p s /\ Forall (fun c => p c = true) pre.
Proof.
  induction s as [|c s IH]; simpl.
  - exists []. split; [reflexivity | constructor].
  - destruct (p c) eqn:Hc.
    + destruct IH as (pre & E & F). exists (c :: pre). split.
      * simpl. now rewrite <- E.
      * now constructor.
    + exists []. split; [reflexivity | constructor].
Qed.

Lemma drop_while_length (p : char16 -> bool) (s : jsstring) :
  List.length (drop_while p s) <= List.length s.
Proof.
  destruct (drop_while_suffix p s) as (pre & E & _).
  rewrite E at 2. rewrite length_app. lia.
Qed.

Lemma drop_while_head (p : char16 -> bool) (s : jsstring) c t :
  drop_while p s = c :: t -> p c = false.
Proof.
  induction s as [|x s IH]; simpl; [discriminate|].
  destruct (p x) eqn:Hx; [exact IH|].
  intros E. injection E as -> _. exact Hx.
Qed.

Lemma drop_while_id (p : char16 -> bool) (s : jsstring) :
  match s with c :: _ => p c = false | [] => True end -> drop_while p s = s.
Proof. destruct s as [|c s]; simpl; [reflexivity|]. now intros ->. Qed.

Lemma trimEnd_prefix (s : jsstring) :
  exists post, s = trimEnd s ++ post /\ Forall (fun c => is_space c = true) post.
Proof.
  unfold trimEnd.
  destruct (drop_while_suffix is_space (rev s)) as (pre & E & F).
  exists (rev pre). split.
  - rewrite <- rev_app_distr, <- E. now rewrite rev_involutive.
  - now apply Forall_rev.
Qed.

Lemma infix_refl (s : jsstring) : infix s s.
Proof. exists [], []. simpl. now rewrite app_nil_r. Qed.

Lemma infix_trans (a b c : jsstring) : infix a b -> infix b c -> infix a c.
Proof.
  intros (p1 & q1 & ->) (p2 & q2 & ->).
  exists (p2 ++ p1), (q1 ++ q2). now rewrite !app_assoc.
Qed.

Lemma trim_infix (s : jsstring) : infix (trim s) s.
Proof.
  unfold trim, trimStart.
  destruct (drop_while_suffix is_space s) as (pre & E & _).
  destruct (trimEnd_prefix (drop_while is_space s)) as (post & E' & _).
  exists pre, post. now rewrite <- E', <- E.
Qed.

Lemma substring_0 (n : nat) (s : jsstring) : substring 0 n s = firstn n s.
Proof.
  unfold substring. simpl.
  rewrite Nat.sub_0_r.
  destruct (Nat.le_ge_cases n (List.length s)) as [H|H].
  - now rewrite Nat.min_l.
  - rewrite Nat.min_r by exact H. rewrite firstn_all. symmetry. now apply firstn_all2.
Qed.

Lemma firstn_infix (n : nat) (s : jsstring) : infix (firstn n s) s.
Proof. exists [], (skipn n s). simpl. now rewrite firstn_skipn. Qed.

Lemma has_tag_infix (t s : jsstring) : infix t s -> has_tag t -> has_tag s.
Proof.
  intros (pre & post & ->) (a & b & c & ->).
  exists (pre ++ a), b, (c ++ post).
  now rewrite <- !app_assoc; simpl; rewrite <- !app_assoc.
Qed.

Lemma has_space_run_infix (t s : jsstring) :
  infix t s -> has_space_run t -> has_space_run s.
Proof.
  intros (pre & post & ->) (a & c & d & b & -> & Hc & Hd).
  exists (pre ++ a), c, d, (b ++ post). repeat split; trivial.
  now rewrite <- !app_assoc.
Qed.

Lemma has_tag_cons (c : char16) (s : jsstring) :
  has_tag (c :: s) <-> (c = LT /\ In GT s) \/ has_tag s.
Proof.
  split.
  - intros (a & b & d & E). destruct a as [|x a]; simpl in E.
    + injection E as -> ->. left. split; [reflexivity|].
      apply in_or_app. right. now left.
    + injection E as -> ->. right. now exists a, b, d.
  - intros [[-> H] | (a & b & d & ->)].
    + apply in_split in H as (b & d & ->). now exists [], b, d.
    + now exists (c :: a), b, d.
Qed.

Lemma has_tag_nil : ~ has_tag [].
Proof. intros (a & b & c & E). now destruct a. Qed.

(** ** The matcher *)

Section Matcher.
Variable ignoreCase : bool.

Lemma canonicalize_LT (c : char16) :
  canonicalize ignoreCase LT = canonicalize ignoreCase c -> c = LT.
Proof.
  unfold canonicalize, LT.
  destruct ignoreCase; simpl; [|congruence].
  destruct (97 <=? c)%N eqn:H1; simpl; [|congruence].
  destruct (c <=? 122)%N eqn:H2; simpl; [|congruence].
  apply N.leb_le in H1. lia.
Qed.

Lemma canonicalize_GT (c : char16) :
  canonicalize ignoreCase GT = canonicalize ignoreCase c -> c = GT.
Proof.
  unfold canonicalize, GT.
  destruct ignoreCase; simpl; [|congruence].
  destruct (97 <=? c)%N eqn:H1; simpl; [|congruence].
  destruct (c <=? 122)%N eqn:H2; simpl; [|congruence].
  apply N.leb_le in H1. lia.
Qed.

(** A greedy star hands some suffix to its continuation. *)
Lemma star_greedy_inv (p : char16 -> bool) (k : jsstring -> option nat) s n :
  star_greedy p k s = Some n ->
  exists j m, n = j + m /\ k (skipn j s) = Some m.
Proof.
  revert n. induction s as [|c s IH]; intros n; simpl.
  - intros H. now exists 0, n.
  - destruct (p c).
    + destruct (star_greedy p k s) as [n'|] eqn:E.
      * intros [= <-]. destruct (IH n' eq_refl) as (j & m & -> & K).
        now exists (S j), m.
      * intros H. now exists 0, n.
    + intros H. now exists 0, n.
Qed.

(** So does a lazy star. *)
Lemma star_lazy_inv (p : char16 -> bool) (k : jsstring -> option nat) s n :
  star_lazy p k s = Some n ->
  exists j m, n = j + m /\ k (skipn j s) = Some m.
Proof.
  revert n. induction s as [|c s IH]; intros n; simpl.
  - destruct (k []) as [m|] eqn:K; [|discriminate].
    intros [= <-]. now exists 0, m.
  - destruct (k (c :: s)) as [m|] eqn:K.
    + intros [= <-]. now exists 0, m.
    + destruct (p c); [|discriminate].
      destruct (star_lazy p k s) as [n'|] eqn:E; simpl; [|discriminate].
      intros [= <-]. destruct (IH n' eq_refl) as (j & m & -> & K').
      now exists (S j), m.
Qed.

Lemma In_firstn_skipn (c : char16) (j m : nat) (s : jsstring) :
  In c (firstn m (skipn j s)) -> In c (firstn (j + m) s).
Proof.
  rewrite firstn_skipn_comm. intros H.
  rewrite <- (firstn_skipn j (firstn (j + m) s)).
  apply in_or_app. now right.
Qed.

Lemma In_firstn (c : char16) (n : nat) (s : jsstring) :
  In c (firstn n s) -> In c s.
Proof.
  intros H. rewrite <- (firstn_skipn n s). apply in_or_app. now left.
Qed.

(** A literal character of the pattern stands in every match. *)
Lemma match_here_literal (r : regex) : forall s n x,
  match_here ignoreCase r s = Some n ->
  In (Chr x, Once) r ->
  exists c, In c (firstn n s)
            /\ canonicalize ignoreCase x = canonicalize ignoreCase c.
Proof.
  induction r as [|[cs q] r IH]; intros s n x Hm Hin; [contradiction|].
  destruct q; simpl in Hm.
  - destruct s as [|c s]; [discriminate|].
    destruct (in_cset ignoreCase cs c) eqn:Hc; [|discriminate].
    destruct (match_here ignoreCase r s) as [n'|] eqn:E; [|discriminate].
    injection Hm as <-.
    destruct Hin as [Hhd | Htl].
    + injection Hhd as ->. exists c. split; [now left|].
      simpl in Hc. now apply N.eqb_eq in Hc.
    + destruct (IH s n' x E Htl) as (c' & Hin' & Hcan).
      exists c'. split; [now right | exact Hcan].
  - destruct Hin as [Hhd | Htl]; [discriminate|].
    apply star_greedy_inv in Hm as (j & m & -> & K).
    destruct (IH _ _ x K Htl) as (c' & Hin' & Hcan).
    exists c'. split; [now apply In_firstn_skipn | exact Hcan].
  - destruct Hin as [Hhd | Htl]; [discriminate|].
    apply star_lazy_inv in Hm as (j & m & -> & K).
    destruct (IH _ _ x K Htl) as (c' & Hin' & Hcan).
    exists c'. split; [now apply In_firstn_skipn | exact Hcan].
Qed.

(** A pattern that opens with [<] and holds a [>] further on matches
    only at a [<] that a [>] follows. *)
Lemma match_here_tag (r : regex) (s : jsstring) (n : nat) :
  match_here ignoreCase ((Chr LT, Once) :: r) s = Some n ->
  In (Chr GT, Once) r ->
  exists u v, s = LT :: u ++ GT :: v.
Proof.
  intros Hm Hin. simpl in Hm.
  destruct s as [|c s]; [discriminate|].
  destruct (canonicalize ignoreCase LT =? canonicalize ignoreCase c)%N eqn:Hc;
    [|discriminate].
  apply N.eqb_eq, canonicalize_LT in Hc. subst c.
  destruct (match_here ignoreCase r s) as [n'|] eqn:E; [|discriminate].
  destruct (@match_here_literal r s n' GT E Hin) as (c & Hc & Hcan).
  apply canonicalize_GT in Hcan. subst c.
  apply In_firstn, in_split in Hc as (u & v & ->).
  now exists u, v.
Qed.

(** Where the pattern matches nowhere, replacing changes nothing. *)
Lemma replace_from_no_match (r : regex) (rep s : jsstring) :
  (forall pre t, s = pre ++ t -> match_here ignoreCase r t = None) ->
  replace_from ignoreCase r rep 0 s = s.
Proof.
  induction s as [|c s IH]; intros H; simpl.
  - now rewrite (H [] [] eq_refl).
  - rewrite (H [] (c :: s) eq_refl). f_equal. apply IH.
    intros pre t ->. now apply (H (c :: pre) t).
Qed.

(** A replacement by the empty string only deletes. *)
Lemma replace_from_deletes (r : regex) (x : char16) : forall s k,
  In x (replace_from ignoreCase r [] k s) -> In x s.
Proof.
  induction s as [|c s IH]; intros k; simpl.
  - destruct k; [destruct (match_here ignoreCase r [])|]; trivial.
  - destruct k as [|k].
    + destruct (match_here ignoreCase r (c :: s)) as [[|n]|]; simpl.
      * intros [->|H]; [now left | right; eauto].
      * intros H. right. eauto.
      * intros [->|H]; [now left | right; eauto].
    + intros H. right. eauto.
Qed.

End Matcher.

(** ** The steps of the extractor *)

(** (1)-(3) on text without a tag: nothing to remove. *)
Lemma replace_tagfree (ignoreCase : bool) (r : regex) (rep s : jsstring) :
  In (Chr GT, Once) r ->
  ~ has_tag s ->
  replace_all ignoreCase ((Chr LT, Once) :: r) rep s = s.
Proof.
  intros Hin Hs. apply replace_from_no_match.
  intros pre t ->.
  destruct (match_here ignoreCase ((Chr LT, Once) :: r) t) as [n|] eqn:E; [|reflexivity].
  destruct (match_here_tag _ _ _ _ E Hin) as (u & v & ->).
  exfalso. apply Hs. now exists pre, u, v.
Qed.

Lemma strip_script_tagfree (s : jsstring) : ~ has_tag s -> strip_script s = s.
Proof.
  apply (replace_tagfree true (tl re_script)).
  cbv. repeat first [left; reflexivity | right].
Qed.

Lemma strip_style_tagfree (s : jsstring) : ~ has_tag s -> strip_style s = s.
Proof.
  apply (replace_tagfree true (tl re_style)).
  cbv. repeat first [left; reflexivity | right].
Qed.

Lemma strip_tags_tagfree (s : jsstring) : ~ has_tag s -> strip_tags s = s.
Proof.
  apply (replace_tagfree false (tl re_tag)).
  cbv. repeat first [left; reflexivity | right].
Qed.

(** (3): the tag pattern matches at every [<] that a [>] follows. *)
Lemma tag_star_complete (s : jsstring) :
  In GT s ->
  star_greedy (in_cset false (NotChr GT)) (match_here false [(Chr GT, Once)]) s <> None.
Proof.
  induction s as [|c s IH]; intros Hin; [contradiction|].
  cbn [star_greedy].
  change (in_cset false (NotChr GT) c) with (negb (GT =? c)%N).
  destruct (GT =? c)%N eqn:Hc; cbn [negb].
  - cbn [match_here]. change (in_cset false (Chr GT) c) with (GT =? c)%N.
    rewrite Hc. discriminate.
  - destruct Hin as [->|Hin]; [now rewrite N.eqb_refl in Hc|].
    specialize (IH Hin).
    destruct (star_greedy _ _ s); [discriminate | contradiction].
Qed.

Lemma tag_match_complete (s : jsstring) :
  In GT s -> match_here false re_tag (LT :: s) <> None.
Proof.
  intros Hin. apply tag_star_complete in Hin.
  unfold re_tag. cbn [match_here].
  change (in_cset false (Chr LT) LT) with (LT =? LT)%N. rewrite N.eqb_refl.
  destruct (star_greedy _ _ s); [discriminate | contradiction].
Qed.

(** (3): after it no [<] is followed by a [>]. *)
Lemma strip_tags_no_tag : forall s k, ~ has_tag (replace_from false re_tag [] k s).
Proof.
  induction s as [|c s IH]; intros k.
  - destruct k; simpl; apply has_tag_nil.
  - destruct k as [|k]; [|apply IH].
    cbn [replace_from].
    destruct (match_here false re_tag (c :: s)) as [[|n]|] eqn:E.
    + exfalso. unfold re_tag in E. cbn [match_here] in E.
      destruct (in_cset false (Chr LT) c); [|discriminate].
      destruct (star_greedy _ _ s); discriminate.
    + apply IH.
    + simpl. rewrite has_tag_cons. intros [[-> Hin] | H].
      * apply replace_from_deletes in Hin. now apply tag_match_complete in Hin.
      * now apply IH in H.
Qed.

(** (4): the whitespace pattern matches a whole run. *)
Lemma spaces_star (s : jsstring) :
  star_greedy is_space (fun _ => Some 0) s = Some (leading_spaces s).
Proof.
  induction s as [|c s IH]; simpl; [reflexivity|].
  destruct (is_space c); [now rewrite IH | reflexivity].
Qed.

Lemma match_spaces (c : char16) (s : jsstring) :
  match_here false re_spaces (c :: s)
  = if is_space c then Some (S (leading_spaces s)) else None.
Proof.
  unfold re_spaces. cbn [match_here in_cset].
  destruct (is_space c); [|reflexivity].
  change (star_greedy _ _ s) with (star_greedy is_space (fun _ => Some 0) s).
  now rewrite spaces_star.
Qed.

(** (4) is the scan [collapse_ws]. *)
Lemma collapse_scan (s : jsstring) :
  replace_from false re_spaces [SP] 0 s = collapse_ws false s
  /\ replace_from false re_spaces [SP] (leading_spaces s) s = collapse_ws true s.
Proof.
  induction s as [|c s [IH0 IH1]]; [split; reflexivity|].
  assert (H0 : replace_from false re_spaces [SP] 0 (c :: s) = collapse_ws false (c :: s)).
  { cbn [replace_from collapse_ws]. rewrite match_spaces.
    destruct (is_space c); simpl; now rewrite ?IH0, ?IH1. }
  split; [exact H0|].
  cbn [leading_spaces]. destruct (is_space c) eqn:Hc.
  - cbn [replace_from collapse_ws]. now rewrite Hc.
  - rewrite H0. cbn [collapse_ws]. now rewrite Hc.
Qed.

Lemma collapse_spaces_scan (s : jsstring) : collapse_spaces s = collapse_ws false s.
Proof. apply collapse_scan. Qed.

Lemma collapse_ws_head (s : jsstring) : starts_with_space (collapse_ws true s) = false.
Proof.
  induction s as [|c s IH]; simpl; [reflexivity|].
  destruct (is_space c) eqn:Hc; [exact IH | exact Hc].
Qed.

Lemma collapse_ws_normal : forall s b, spaces_normal (collapse_ws b s) = true.
Proof.
  induction s as [|c s IH]; intros b; simpl; [reflexivity|].
  destruct (is_space c) eqn:Hc.
  - destruct b; [apply IH|].
    cbn [spaces_normal]. rewrite collapse_ws_head, IH.
    now rewrite N.eqb_refl, orb_true_r.
  - cbn [spaces_normal]. now rewrite Hc, IH.
Qed.

Lemma spaces_normal_no_run (s : jsstring) :
  spaces_normal s = true -> ~ has_space_run s.
Proof.
  induction s as [|c s IH]; intros H (a & x & y & b & E & Hx & Hy).
  - now destruct a.
  - cbn [spaces_normal] in H. apply andb_true_iff in H as [H1 H2].
    destruct a as [|z a]; simpl in E; injection E as -> ->.
    + simpl in H1. rewrite Hx, Hy in H1. simpl in H1.
      now rewrite andb_false_r in H1.
    + apply (IH H2). now exists a, x, y, b.
Qed.

Lemma spaces_normal_app (a b : jsstring) :
  spaces_normal (a ++ b) = true -> spaces_normal a = true /\ spaces_normal b = true.
Proof.
  induction a as [|c a IH]; simpl; [now split|].
  intros H. apply andb_true_iff in H as [H1 H2].
  destruct (IH H2) as [Ha Hb]. split; [|exact Hb].
  rewrite Ha, andb_true_r.
  destruct a; simpl in *; [|exact H1].
  apply orb_true_iff in H1 as [->| H1]; [reflexivity|].
  apply andb_true_iff in H1 as [-> _]. now rewrite orb_true_r.
Qed.

Lemma spaces_normal_infix (t s : jsstring) :
  infix t s -> spaces_normal s = true -> spaces_normal t = true.
Proof.
  intros (pre & post & ->) H.
  apply spaces_normal_app in H as [_ H]. now apply spaces_normal_app in H as [H _].
Qed.

(** (4) on text whose whitespace is already single spaces. *)
Lemma collapse_ws_id : forall s b,
  spaces_normal s = true ->
  (b = true -> starts_with_space s = false) ->
  collapse_ws b s = s.
Proof.
  induction s as [|c s IH]; intros b H Hb; simpl; [reflexivity|].
  cbn [spaces_normal] in H. apply andb_true_iff in H as [H1 H2].
  destruct (is_space c) eqn:Hc; simpl in H1.
  - apply andb_true_iff in H1 as [Hsp Hnext].
    apply N.eqb_eq in Hsp. subst c.
    destruct b; [simpl in Hb; rewrite Hb in Hc by reflexivity; discriminate|].
    f_equal. apply IH; [exact H2|]. intros _. now apply negb_true_iff.
  - f_equal. apply IH; [exact H2 | discriminate].
Qed.

(** (5): a trimmed string neither starts nor ends with whitespace. *)
Lemma starts_with_space_prefix (a b : jsstring) :
  starts_with_space (a ++ b) = false -> starts_with_space a = false.
Proof. destruct a; simpl; trivial. Qed.

Lemma drop_while_starts (s : jsstring) :
  starts_with_space (drop_while is_space s) = false.
Proof.
  destruct (drop_while is_space s) as [|c t] eqn:E; [reflexivity|].
  simpl. now apply drop_while_head in E.
Qed.

Lemma trim_starts (s : jsstring) : starts_with_space (trim s) = false.
Proof.
  unfold trim, trimStart.
  destruct (trimEnd_prefix (drop_while is_space s)) as (post & E & _).
  apply (starts_with_space_prefix _ post). rewrite <- E. apply drop_while_starts.
Qed.

Lemma trim_ends (s : jsstring) : ends_with_space (trim s) = false.
Proof.
  unfold ends_with_space, trim, trimEnd. rewrite rev_involutive.
  apply drop_while_starts.
Qed.

Lemma trim_id (s : jsstring) :
  starts_with_space s = false -> ends_with_space s = false -> trim s = s.
Proof.
  intros H1 H2. unfold trim, trimStart, trimEnd.
  rewrite (drop_while_id is_space s) by (destruct s; simpl in *; trivial).
  rewrite drop_while_id; [apply rev_involutive|].
  unfold ends_with_space in H2. destruct (rev s); simpl in *; trivial.
Qed.

Lemma trim_shrinks (s : jsstring) :
  ends_with_space s = true -> List.length (trim s) < List.length s.
Proof.
  intros H. unfold trim, trimEnd.
  rewrite length_rev.
  unfold ends_with_space in H.
  pose proof (drop_while_length is_space s) as L1. fold (trimStart s) in *.
  destruct (rev (trimStart s)) as [|c r] eqn:E.
  - simpl. destruct s; [discriminate H | simpl; lia].
  - assert (L2 : List.length (trimStart s) = S (List.length r)).
    { rewrite <- length_rev, E. reflexivity. }
    destruct (is_space c) eqn:Hc.
    + simpl. rewrite Hc. pose proof (drop_while_length is_space r). lia.
    + (* the last character of [trimStart s] is the last of [s] *)
      exfalso.
      destruct (drop_while_suffix is_space s) as (pre & Es & _).
      fold (trimStart s) in Es.
      rewrite Es, rev_app_distr, E in H. simpl in H. congruence.
Qed.

(** ** The extractor as a whole *)

Lemma extract_infix (html : jsstring) :
  infix (extract html)
        (collapse_spaces (strip_tags (strip_style (strip_script html)))).
Proof.
  unfold extract. rewrite substring_0.
  eapply infix_trans; [apply firstn_infix | apply trim_infix].
Qed.

Lemma collapse_spaces_no_tag (s : jsstring) : ~ has_tag s -> ~ has_tag (collapse_spaces s).
Proof.
  rewrite collapse_spaces_scan. generalize false.
  induction s as [|c s IH]; intros b Hs; simpl; [apply has_tag_nil|].
  rewrite has_tag_cons in Hs.
  assert (Hin : forall b', In GT (collapse_ws b' s) -> In GT s).
  { clear. induction s as [|x s IH]; intros b'; simpl; [trivial|].
    destruct (is_space x) eqn:Hx.
    - destruct b'; [eauto|]. intros [E|H]; [discriminate E | eauto].
    - intros [E|H]; [now left | eauto]. }
  destruct (is_space c) eqn:Hc.
  - destruct b; [now apply IH; intros H; apply Hs; right|].
    rewrite has_tag_cons. intros [[E _]|H]; [discriminate E|].
    revert H. apply IH. intros H. apply Hs. now right.
  - rewrite has_tag_cons. intros [[-> H]|H].
    + apply Hs. left. split; [reflexivity | eauto].
    + revert H. apply IH. intros H. apply Hs. now right.
Qed.

Lemma extract_no_tag (html : jsstring) : ~ has_tag (extract html).
Proof.
  intros H. apply (has_tag_infix _ _ (extract_infix html)) in H.
  revert H. apply collapse_spaces_no_tag. apply strip_tags_no_tag.
Qed.

Lemma extract_spaces_normal (html : jsstring) : spaces_normal (extract html) = true.
Proof.
  apply (spaces_normal_infix _ _ (extract_infix html)).
  rewrite collapse_spaces_scan. apply collapse_ws_normal.
Qed.

Lemma extract_length (html : jsstring) : List.length (extract html) <= TEXT_LIMIT.
Proof. unfold extract. rewrite substring_0. apply firstn_le_length. Qed.

Lemma extract_starts (html : jsstring) : starts_with_space (extract html) = false.
Proof.
  unfold extract. rewrite substring_0.
  match goal with |- context [firstn ?n ?u] =>
    apply (starts_with_space_prefix _ (skipn n u)); rewrite firstn_skipn
  end.
  apply trim_starts.
Qed.

(** Steps (1)-(4) leave extracted text as it is. *)
Lemma clean_steps_id (t : jsstring) :
  ~ has_tag t -> spaces_normal t = true ->
  collapse_spaces (strip_tags (strip_style (strip_script t))) = t.
Proof.
  intros Ht Hn.
  rewrite (strip_script_tagfree t Ht), (strip_style_tagfree t Ht), (strip_tags_tagfree t Ht).
  rewrite collapse_spaces_scan. apply collapse_ws_id; [exact Hn | discriminate].
Qed.

Lemma extract_again (html : jsstring) :
  extract (extract html) = firstn TEXT_LIMIT (trim (extract html)).
Proof.
  unfold extract at 1. rewrite substring_0.
  now rewrite (clean_steps_id _ (extract_no_tag html) (extract_spaces_normal html)).
Qed.

Example extract_scenario :
  extract (s16 "<html><body><script>x</script>Hello <b>World</b></body></html>")
  = s16 "Hello World".
Proof. vm_compute. reflexivity. Qed.

Example extract_mixed :
  extract (s16 "  <STYLE type=x>p{}</stYle><p class='a>b'>A  B</p> <ScRiPt>1<2</SCRIPT>c > d < e  ")
  = s16 "b'>A B c > d < e".
Proof. vm_compute. reflexivity. Qed.

(** ** The text that is cut right after a space *)

Lemma no_lt_no_tag (s : jsstring) : ~ In LT s -> ~ has_tag s.
Proof.
  intros H (a & b & c & ->). apply H. apply in_or_app. right. now left.
Qed.

Lemma letters_then (n : nat) (tail : jsstring) (c : char16) :
  In c (repeat 97%N n ++ tail) -> c = 97%N \/ In c tail.
Proof.
  intros H. apply in_app_or in H as [H|H]; [left | now right].
  now apply repeat_spec in H.
Qed.

Lemma letters_spaces_normal (n : nat) (tail : jsstring) :
  spaces_normal tail = true -> spaces_normal (repeat 97%N n ++ tail) = true.
Proof.
  intros H. induction n as [|n IH]; [exact H|].
  cbn [repeat app spaces_normal]. now rewrite IH.
Qed.

Lemma letters_firstn (n : nat) (c : char16) (tail : jsstring) :
  firstn (S n) (repeat 97%N n ++ c :: tail) = repeat 97%N n ++ [c].
Proof.
  induction n as [|n IH]; [reflexivity|].
  cbn [repeat app]. rewrite firstn_cons. now rewrite IH.
Qed.

Lemma letters_starts (n : nat) (tail : jsstring) :
  starts_with_space (repeat 97%N (S n) ++ tail) = false.
Proof. reflexivity. Qed.

Example extract_long_text : extract long_text = repeat 97%N 7999 ++ [SP].
Proof.
  unfold extract, long_text. rewrite substring_0.
  change (s16 " b") with [SP; 98%N].
  rewrite clean_steps_id.
  - rewrite trim_id.
    + apply letters_firstn.
    + apply (letters_starts 7998).
    + unfold ends_with_space. now rewrite rev_app_distr.
  - apply no_lt_no_tag. intros H. apply letters_then in H as [H|[H|[H|[]]]]; discriminate H.
  - now apply letters_spaces_normal.
Qed.

Lemma drop_while_none (p : char16 -> bool) (s : jsstring) :
  Forall (fun c => p c = false) s -> drop_while p s = s.
Proof. intros H. apply drop_while_id. destruct H; trivial. Qed.

Lemma letters_no_space (n : nat) : Forall (fun c => is_space c = false) (repeat 97%N n).
Proof. apply Forall_forall. intros c H. now rewrite (repeat_spec _ _ _ H). Qed.

Lemma letters_space_trim (n : nat) : trim (repeat 97%N n ++ [SP]) = repeat 97%N n.
Proof.
  unfold trim, trimStart, trimEnd.
  assert (E : drop_while is_space (repeat 97%N n ++ [SP])
              = match n with O => [] | S _ => repeat 97%N n ++ [SP] end).
  { now destruct n. }
  rewrite E. destruct n as [|n]; [reflexivity|].
  rewrite rev_unit. cbn [drop_while]. change (is_space SP) with true. cbn iota.
  rewrite drop_while_none by apply Forall_rev, letters_no_space.
  apply rev_involutive.
Qed.

Example extract_long_text_again : extract (extract long_text) = repeat 97%N 7999.
Proof.
  rewrite extract_again, extract_long_text, letters_space_trim.
  apply firstn_all2. rewrite repeat_length. change TEXT_LIMIT with (S 7999).
  apply Nat.le_succ_diag_r.
Qed.

Open Scope string_scope.
Open Scope list_scope.
Open Scope js_scope.

(** ** The store *)

Lemma select_single_inv (R : Type) (id_of : R -> Z) (e : store_env) (op : db_op)
      (rows : list R) (v : jsval) (r : R) :
  select_single id_of e op rows v = DbOk r ->
  In r rows /\ pg_bigint e v = Accepted (id_of r).
Proof.
  unfold select_single.
  destruct (db_silent e op); [discriminate|].
  destruct (db_fault e op); [discriminate|].
  destruct (pg_bigint e v) as [n|]; [|discriminate].
  destruct (filter _ rows) as [|x [|y l]] eqn:F; try discriminate.
  intros [= ->].
  assert (H : In r (filter (fun r0 => (id_of r0 =? n)%Z) rows)) by (rewrite F; now left).
  apply filter_In in H as [H1 H2]. apply Z.eqb_eq in H2. now subst.
Qed.

(** What an insert leaves as it was, and what it adds. *)
Lemma insert_url_frame (e : store_env) (st st' : store) (url : jsval) (caption : jsstring)
      (r : db_result url_row) :
  insert_url e st url caption = (r, st') ->
  prompts st' = prompts st /\ url_summery st' = url_summery st
  /\ urls st' = urls st ++ match r with DbOk row => [row] | _ => [] end.
Proof.
  unfold insert_url.
  destruct (db_silent e InsertUrls); [intros [= <- <-]; now rewrite app_nil_r|].
  destruct (db_fault e InsertUrls); [intros [= <- <-]; now rewrite app_nil_r|].
  destruct (pg_text e url); [|intros [= <- <-]; now rewrite app_nil_r].
  cbv zeta. destruct (has_id _ _); intros [= <- <-]; simpl; now rewrite ?app_nil_r.
Qed.

Lemma insert_summery_frame (e : store_env) (st st' : store) (i : summery_insert)
      (r : db_result summery_row) :
  insert_summery e st i = (r, st') ->
  prompts st' = prompts st /\ urls st' = urls st
  /\ url_summery st' = url_summery st ++ match r with DbOk row => [row] | _ => [] end.
Proof.
  unfold insert_summery.
  destruct (db_silent e InsertUrlSummery); [intros [= <- <-]; now rewrite app_nil_r|].
  destruct (db_fault e InsertUrlSummery); [intros [= <- <-]; now rewrite app_nil_r|].
  destruct (pg_bigint e (ins_url_id i)), (pg_bigint e (ins_prompt_id i)),
    (pg_text e (ins_ai_response i));
    try (intros [= <- <-]; now rewrite app_nil_r).
  cbv zeta.
  destruct (has_id _ (map summery_id _)); [intros [= <- <-]; now rewrite app_nil_r|].
  destruct (has_id _ (map url_id _)); [|intros [= <- <-]; now rewrite app_nil_r].
  destruct (has_id _ (map prompt_id _)); intros [= <- <-]; simpl; now rewrite ?app_nil_r.
Qed.

Lemma insert_url_ok (e : store_env) (st st' : store) (url : jsval) (caption : jsstring)
      (row : url_row) :
  insert_url e st url caption = (DbOk row, st') ->
  In row (urls st') /\ url_summery st' = url_summery st.
Proof.
  intros H. apply insert_url_frame in H as (_ & H1 & H2). split; [|exact H1].
  rewrite H2. apply in_or_app. right. now left.
Qed.

Lemma insert_url_err (e : store_env) (st st' : store) (url : jsval) (caption : jsstring)
      (r : db_result url_row) :
  insert_url e st url caption = (r, st') -> data_of r = None -> st' = st.
Proof.
  intros H Hr. apply insert_url_frame in H as (H1 & H2 & H3).
  destruct r; try discriminate Hr; rewrite app_nil_r in H3;
    destruct st, st'; simpl in *; congruence.
Qed.

(** The row a successful [urls] insert creates. *)
Lemma insert_url_row (e : store_env) (st st' : store) (url : jsval) (caption : jsstring)
      (row : url_row) :
  insert_url e st url caption = (DbOk row, st') ->
  pg_text e url = Accepted (url_url row)
  /\ url_caption row = Some caption
  /\ url_created_at row = db_now e
  /\ url_id row = Z.pos (db_serial e InsertUrls)
  /\ has_id (url_id row) (map url_id (urls st)) = false.
Proof.
  unfold insert_url.
  destruct (db_silent e InsertUrls); [discriminate|].
  destruct (db_fault e InsertUrls); [discriminate|].
  destruct (pg_text e url); [|discriminate].
  cbv zeta. destruct (has_id _ _) eqn:E; [discriminate|].
  intros [= <- <-]. now repeat split.
Qed.

Lemma insert_summery_urls (e : store_env) (st st' : store) (i : summery_insert)
      (r : db_result summery_row) :
  insert_summery e st i = (r, st') -> urls st' = urls st.
Proof. intros H. now apply insert_summery_frame in H as (_ & H & _). Qed.

(** The row a successful [url_summery] insert creates. *)
Lemma insert_summery_row (e : store_env) (st st' : store) (i : summery_insert)
      (row : summery_row) :
  insert_summery e st i = (DbOk row, st') ->
  scraped_data row = Some (ins_scraped_data i)
  /\ summery_id row = Z.pos (db_serial e InsertUrlSummery)
  /\ has_id (summery_id row) (map summery_id (url_summery st)) = false
  /\ (exists u, summery_url_id row = Some u /\ pg_bigint e (ins_url_id i) = Accepted u
                 /\ has_id u (map url_id (urls st)) = true)
  /\ (exists p, summery_prompt_id row = Some p /\ pg_bigint e (ins_prompt_id i) = Accepted p
                 /\ has_id p (map prompt_id (prompts st)) = true)
  /\ (exists a, ai_response row = Some a /\ pg_text e (ins_ai_response i) = Accepted a).
Proof.
  unfold insert_summery.
  destruct (db_silent e InsertUrlSummery); [discriminate|].
  destruct (db_fault e InsertUrlSummery); [discriminate|].
  destruct (pg_bigint e (ins_url_id i)) as [u|], (pg_bigint e (ins_prompt_id i)) as [p|],
    (pg_text e (ins_ai_response i)) as [a|]; try discriminate.
  cbv zeta.
  destruct (has_id _ (map summery_id _)) eqn:E1; [discriminate|].
  destruct (has_id _ (map url_id _)) eqn:E2; [|discriminate].
  destruct (has_id _ (map prompt_id _)) eqn:E3; [|discriminate].
  cbn [negb]. intros [= <- <-]. cbn.
  repeat apply conj; try reflexivity; try exact E1; eexists; repeat split; assumption.
Qed.

Lemma insert_summery_ok (e : store_env) (st st' : store) (i : summery_insert)
      (row : summery_row) :
  insert_summery e st i = (DbOk row, st') ->
  In row (url_summery st') /\ scraped_data row = Some (ins_scraped_data i).
Proof.
  intros H. split; [|now apply insert_summery_row in H as (H & _)].
  apply insert_summery_frame in H as (_ & _ & H). rewrite H.
  apply in_or_app. right. now left.
Qed.

Lemma insert_summery_err (e : store_env) (st st' : store) (i : summery_insert)
      (r : db_result summery_row) :
  insert_summery e st i = (r, st') -> data_of r = None -> st' = st.
Proof.
  intros H Hr. apply insert_summery_frame in H as (H1 & H2 & H3).
  destruct r; try discriminate Hr; rewrite app_nil_r in H3;
    destruct st, st'; simpl in *; congruence.
Qed.

(** An identifier the primary key admits differs from every stored one. *)
Lemma has_id_false (n : Z) (ids : list Z) :
  has_id n ids = false -> ~ In n ids.
Proof.
  unfold has_id. intros H Hin.
  assert (E : existsb (Z.eqb n) ids = true)
    by (apply existsb_exists; exists n; split; [exact Hin | apply Z.eqb_refl]).
  congruence.
Qed.

(** ** JavaScript values *)

Lemma truthy_defined (v : jsval) : truthy v = true -> defined v = true.
Proof. now destruct v. Qed.

Lemma defined_opt_str (o : option jsstring) : defined (opt_str o) = true.
Proof. now destruct o. Qed.

Lemma first_choice_truthy (data v : jsval) : first_choice data = Ok v -> truthy v = true.
Proof.
  unfold first_choice.
  destruct (get_member data "choices") as [choices|]; [|discriminate].
  destruct (get_first choices) as [choice|]; [|discriminate].
  intros [= <-]. unfold js_or.
  destruct (truthy (opt_member _ _)) eqn:E; [exact E | reflexivity].
Qed.

Lemma lookup_remove_same (k : string) (fields : list (string * jsval)) :
  lookup k (remove_field k fields) = JUndefined.
Proof.
  induction fields as [|[k' v] fields IH]; simpl; [reflexivity|].
  destruct (k' =? k) eqn:E; simpl; [exact IH|]. now rewrite E.
Qed.

Lemma lookup_remove_other (k k' : string) (fields : list (string * jsval)) :
  k' <> k -> lookup k' (remove_field k fields) = lookup k' fields.
Proof.
  intros Hne. induction fields as [|[k0 v] fields IH]; simpl; [reflexivity|].
  destruct (k0 =? k) eqn:E; simpl.
  - apply String.eqb_eq in E. subst k0.
    destruct (k =? k') eqn:E'; [apply String.eqb_eq in E'; congruence | exact IH].
  - destruct (k0 =? k'); [reflexivity | exact IH].
Qed.

Lemma ToString_str (s : jsstring) : ToString (JStr s) = Ok s.
Proof. reflexivity. Qed.

Lemma ToString_num (n : Z) : ToString (JNum n) = Ok (Z_to_js n).
Proof. reflexivity. Qed.

(** The conversion throws on an object with an own [toString]. *)
Lemma ToString_own_toString (fields : list (string * jsval)) :
  has_own "toString" fields = true -> ToString (JObj fields) = Throw not_primitive.
Proof. intros H. cbn [ToString]. now rewrite H. Qed.

(** The members the handler destructures are the ones [req_field]
    reads. *)
Lemma req_field_read (req : request) (body : jsval) (fields : string -> jsval)
      (k0 k : string) :
  req_json req = Ok body -> destructure body k0 = Ok fields -> req_field k req = fields k.
Proof.
  intros H1 H2. unfold req_field. rewrite H1.
  destruct body; try discriminate H2; injection H2 as <-; reflexivity.
Qed.

Lemma destructure_obj (fields : list (string * jsval)) (k : string) :
  destructure (JObj fields) k = Ok (fun k' => lookup k' fields).
Proof. reflexivity. Qed.

(** The configured key, once known to be truthy. *)
Lemma env_key (o : option jsstring) :
  truthy (env_val o) = true -> exists key, o = Some key /\ key <> [] /\ env_text o = key.
Proof.
  destruct o as [key|]; [|discriminate]. intros H. exists key.
  repeat split. intros ->. discriminate H.
Qed.

(** ** Running a handler symbolically *)

Ltac exec_unfold :=
  unfold run, serve, summerize_url, process_url, scrape, ask_chatgpt, save_summery,
       console_log, console_error,
       db_insert_urls, db_select_urls, db_select_prompts, db_insert_url_summery,
       fetch_get, fetch_completion,
       bind, ret, try_catch, await, throw, emit in *.

Ltac exec_simpl := cbn beta iota zeta delta [app fst snd negb db trace data_of row_of] in *.

(** Case analysis on the innermost test the goal is stuck on. *)
Ltac exec_step :=
  match goal with
  | |- context [match ?x with _ => _ end] =>
      lazymatch x with
      | context [match _ with _ => _ end] => fail
      | _ => destruct x eqn:?
      end
  end.

Ltac exec := exec_unfold; exec_simpl; repeat (exec_step; exec_simpl).

(** Case analysis on [In e [e1; ...; en]]: the cases that may hold stay. *)
Ltac in_cases H :=
  repeat (destruct H as [H|H]; [try discriminate H | ]);
  try contradiction H.

(** [In e [e1; ...; en]] for an [e] that stands in the list. *)
Ltac in_list := repeat first [left; reflexivity | right].

Opaque s16 Z_to_js ToString extract substring destructure.

(** A handler never lets an error escape. *)
Lemma run_returns (ep : endpoint) (w : World) (st : store) (req : request) :
  exists r, fst (fst (run ep w st req)) = Ok r.
Proof.
  destruct ep; exec; eauto.
Qed.

(** ** Preflight and validation *)

Lemma run_options (ep : endpoint) (w : World) (st : store) (req : request) :
  method req = "OPTIONS" ->
  run ep w st req = (Ok preflight, st, []).
Proof.
  intros H. destruct ep; exec_unfold; rewrite H; reflexivity.
Qed.

(** The request field each endpoint tests first, and the name its
    error message gives it. *)
Lemma run_first_field_falsy (ep : endpoint) (w : World) (st : store) (req : request)
      (fields : list (string * jsval)) :
  method req <> "OPTIONS" ->
  req_json req = Ok (JObj fields) ->
  truthy (lookup (hd "" (required_fields ep)) fields) = false ->
  run ep w st req
  = (Ok (json_response 400
           [("error", JStr (s16 (match ep with SummerizeUrl => "URL" | ProcessUrl => "url_id" end)
                            ++ s16 " is required"))]), st, []).
Proof.
  intros Hm Hj Hf. apply String.eqb_neq in Hm.
  destruct ep; exec_unfold; rewrite Hm, Hj; exec_simpl; cbn [destructure opt_member];
    simpl in Hf; rewrite Hf; reflexivity.
Qed.

Lemma run_prompt_id_falsy (ep : endpoint) (w : World) (st : store) (req : request)
      (fields : list (string * jsval)) :
  method req <> "OPTIONS" ->
  req_json req = Ok (JObj fields) ->
  truthy (lookup (hd "" (required_fields ep)) fields) = true ->
  truthy (lookup "prompt_id" fields) = false ->
  run ep w st req
  = (Ok (json_response 400 [("error", JStr (s16 "prompt_id" ++ s16 " is required"))]),
     st, []).
Proof.
  intros Hm Hj Hf Hp. apply String.eqb_neq in Hm.
  destruct ep; exec_unfold; rewrite Hm, Hj; exec_simpl; cbn [destructure opt_member];
    simpl in Hf; rewrite Hf, Hp;
    reflexivity.
Qed.

(** ** The handlers on concrete requests *)

Example ingest_scenario :
  run SummerizeUrl demo_world demo_store ingest_request
  = (Ok (json_response 200
           [("success", JBool true);
            ("url_id", JNum 2);
            ("url", JStr (s16 "https://example.com"));
            ("summary", JStr (s16 "A short page."));
            ("prompt_used", JStr (s16 "General Summary"));
            ("created_at", JStr (s16 "2025-01-01T00:00:00+00:00"));
            ("processed", JBool true);
            ("summery_id", JNum 1)]),
     snd (fst (run SummerizeUrl demo_world demo_store ingest_request)),
     snd (run SummerizeUrl demo_world demo_store ingest_request))
  /\ map scraped_data
         (url_summery (snd (fst (run SummerizeUrl demo_world demo_store ingest_request))))
     = [Some (s16 "Hello World")].
Proof. split; vm_compute; reflexivity. Qed.

(** The run of one fixture, taken apart. *)
Lemma run_parts (ep : endpoint) (w : World) (st : store) (req : request) :
  run ep w st req
  = (fst (fst (run ep w st req)), snd (fst (run ep w st req)), snd (run ep w st req)).
Proof. now destruct (run ep w st req) as [[? ?] ?]. Qed.

(** ** The regular-expression steps as scans *)

Lemma match_star (i : bool) (cs : cset) (r : regex) (s : jsstring) :
  match_here i ((cs, Star) :: r) s = star_greedy (in_cset i cs) (match_here i r) s.
Proof. reflexivity. Qed.

Lemma match_lazy (i : bool) (cs : cset) (r : regex) (s : jsstring) :
  match_here i ((cs, LazyStar) :: r) s = star_lazy (in_cset i cs) (match_here i r) s.
Proof. reflexivity. Qed.

Lemma match_lits (q : jsstring) (r : regex) : forall s,
  match_here true (lits q ++ r) s
  = if prefix_ci q s
    then option_map (Nat.add (List.length q)) (match_here true r (skipn (List.length q) s))
    else None.
Proof.
  induction q as [|x q IH]; intros s.
  - simpl. now destruct (match_here true r s).
  - destruct s as [|c s]; [reflexivity|].
    cbn [lits map app match_here prefix_ci List.length skipn].
    change (in_cset true (Chr x) c) with (eq_ci x c).
    destruct (eq_ci x c); [|reflexivity].
    fold (lits q). rewrite IH. cbn [andb].
    destruct (prefix_ci q s); [|reflexivity].
    now destruct (match_here true r (skipn (List.length q) s)).
Qed.

Lemma not_gt (i : bool) (c : char16) :
  in_cset i (NotChr GT) c = negb (c =? GT)%N /\ in_cset i (Chr GT) c = (c =? GT)%N.
Proof.
  assert (H : (canonicalize i GT =? canonicalize i c)%N = (c =? GT)%N).
  { destruct (c =? GT)%N eqn:E.
    - apply N.eqb_eq in E. subst c. apply N.eqb_refl.
    - apply N.eqb_neq. intros H. apply canonicalize_GT in H. apply N.eqb_neq in E. congruence. }
  cbn [in_cset]. now rewrite H.
Qed.

Lemma is_lt (c : char16) : in_cset false (Chr LT) c = (c =? LT)%N.
Proof. cbn [in_cset]. unfold canonicalize. cbn [andb]. apply N.eqb_sym. Qed.

(** A greedy [[^>]*] before a [>] runs to the first [>]. *)
Lemma star_to_gt (i : bool) (r : regex) : forall s,
  star_greedy (in_cset i (NotChr GT)) (match_here i ((Chr GT, Once) :: r)) s
  = match through_gt s with
    | Some j => option_map (Nat.add j) (match_here i r (skipn j s))
    | None => None
    end.
Proof.
  induction s as [|c s IH]; [reflexivity|].
  cbn [star_greedy through_gt].
  destruct (not_gt i c) as [-> Hgt].
  destruct (c =? GT)%N eqn:E; cbn [negb].
  - cbn [match_here]. rewrite Hgt, ?E. cbn [skipn].
    now destruct (match_here i r s).
  - rewrite IH. destruct (through_gt s) as [j|]; cbn [option_map skipn].
    + destruct (match_here i r (skipn j s)); cbn [option_map]; [reflexivity|].
      cbn [match_here]. now rewrite Hgt, ?E.
    + cbn [match_here]. now rewrite Hgt, ?E.
Qed.

(** A lazy [[\s\S]*?] before a literal runs to its first occurrence. *)
Lemma star_to_literal (q : jsstring) : forall s,
  star_lazy (in_cset true AnyChar) (match_here true (lits q)) s = through_ci q s.
Proof.
  assert (K : forall s, match_here true (lits q) s
                        = if prefix_ci q s then Some (List.length q) else None).
  { intros s. rewrite <- (app_nil_r (lits q)), match_lits. cbn [match_here option_map].
    now rewrite Nat.add_0_r. }
  induction s as [|c s IH].
  - cbn [star_lazy through_ci]. rewrite K. now destruct (prefix_ci q []).
  - cbn [star_lazy through_ci]. rewrite K.
    destruct (prefix_ci q (c :: s)); [reflexivity|].
    cbn [in_cset]. now rewrite IH.
Qed.

Lemma match_block (name : string) (s : jsstring) :
  match_here true
    (lits (s16 ("<" ++ name))
     ++ [(NotChr GT, Star); (Chr GT, Once); (AnyChar, LazyStar)]
     ++ lits (s16 ("</" ++ name ++ ">"))) s
  = block_length name s.
Proof.
  unfold block_length. rewrite match_lits.
  destruct (prefix_ci _ s); [|reflexivity].
  cbn [app]. rewrite match_star, star_to_gt.
  destruct (through_gt _) as [j|]; [|reflexivity].
  rewrite match_lazy, star_to_literal, skipn_skipn, (Nat.add_comm j).
  destruct (through_ci _ _) as [m|]; cbn [option_map]; [|reflexivity].
  now rewrite Nat.add_assoc.
Qed.

Lemma replace_blocks (name : string) : forall s k,
  replace_from true
    (lits (s16 ("<" ++ name))
     ++ [(NotChr GT, Star); (Chr GT, Once); (AnyChar, LazyStar)]
     ++ lits (s16 ("</" ++ name ++ ">"))) [] k s
  = remove_blocks name k s.
Proof.
  induction s as [|c s IH]; intros k.
  - cbn [replace_from remove_blocks]. destruct k; [|reflexivity].
    now destruct (match_here _ _ []).
  - cbn [replace_from remove_blocks]. destruct k as [|k]; [|apply IH].
    rewrite match_block. destruct (block_length name (c :: s)) as [[|n]|];
      cbn [app]; now rewrite IH.
Qed.

Lemma strip_script_scan (s : jsstring) : strip_script s = remove_blocks "script" 0 s.
Proof. apply (replace_blocks "script"). Qed.

Lemma strip_style_scan (s : jsstring) : strip_style s = remove_blocks "style" 0 s.
Proof. apply (replace_blocks "style"). Qed.

Lemma strip_tags_scan_from : forall s k,
  replace_from false re_tag [] k s = remove_tags k s.
Proof.
  induction s as [|c s IH]; intros k.
  - cbn [replace_from remove_tags]. destruct k; reflexivity.
  - cbn [replace_from remove_tags]. destruct k as [|k]; [|apply IH].
    unfold re_tag at 1.
    change (match_here false ((Chr LT, Once) :: ?r) (c :: s))
      with (if in_cset false (Chr LT) c
            then option_map S (match_here false [(NotChr GT, Star); (Chr GT, Once)] s)
            else None).
    rewrite is_lt.
    destruct (c =? LT)%N; [|now rewrite IH].
    rewrite match_star, star_to_gt. destruct (through_gt s) as [j|]; cbn [option_map match_here].
    + rewrite Nat.add_0_r. cbn [app]. apply IH.
    + now rewrite IH.
Qed.

Lemma strip_tags_scan (s : jsstring) : strip_tags s = remove_tags 0 s.
Proof. apply strip_tags_scan_from. Qed.

(** ** What [trim] removes *)

Lemma drop_while_split (p : char16 -> bool) (s : jsstring) :
  exists a, s = a ++ drop_while p s /\ Forall (fun c => p c = true) a.
Proof.
  induction s as [|c s (a & E & Ha)]; [exists []; now split|].
  cbn [drop_while]. destruct (p c) eqn:Hc.
  - exists (c :: a). split; [cbn; now rewrite <- E | now constructor].
  - exists []. now split.
Qed.

(** [trim] takes away a run of whitespace at each end, and all of
    it. *)
Lemma trim_split (s : jsstring) :
  exists a b,
    s = a ++ trim s ++ b
    /\ Forall (fun c => is_space c = true) a
    /\ Forall (fun c => is_space c = true) b
    /\ starts_with_space (trim s) = false
    /\ ends_with_space (trim s) = false.
Proof.
  unfold trim, trimStart.
  destruct (drop_while_split is_space s) as (a & Ea & Ha).
  set (t := drop_while is_space s) in *.
  destruct (drop_while_split is_space (rev t)) as (b & Eb & Hb).
  exists a, (rev b). repeat apply conj.
  - rewrite Ea at 1. f_equal. unfold trimEnd.
    rewrite <- (rev_involutive t) at 1. rewrite Eb at 1. now rewrite rev_app_distr.
  - exact Ha.
  - now apply Forall_rev.
  - apply (trim_starts s).
  - apply (trim_ends s).
Qed.
(* ================================================================== *)
(** * Part III.  The claims                                             *)
(* ================================================================== *)

(** ** The text extractor *)

(** C4.  The extractor is the six steps in their order, and each step
    is pinned down.  Steps (1) and (2) are the scan that drops every
    [<script ...> ... </script>] (every [<style ...> ... </style>])
    block met from left to right, letter case apart, up to the first
    closing tag and across line breaks; step (3) is the scan that
    drops every [<] together with everything up to the next [>]; step
    (4) is the scan that replaces each run of whitespace by one space;
    step (5) takes away a run of whitespace at each end, and all of it;
    step (6) keeps the first 8000 code units; so the extractor is the
    one pass [extract_scan] built from these scans.  Consequently the output
    holds no [<] that a [>] follows (no piece the tag pattern would
    match) and no two whitespace characters side by side. *)
Theorem extract_six_steps (html : jsstring) :
  extract html
  = substring 0 8000
      (trim (collapse_spaces (strip_tags (strip_style (strip_script html)))))
  /\ (forall s, strip_script s = remove_blocks "script" 0 s)
  /\ (forall s, strip_style s = remove_blocks "style" 0 s)
  /\ (forall s, strip_tags s = remove_tags 0 s)
  /\ (forall s, collapse_spaces s = collapse_ws false s)
  /\ (forall s, exists a b,
         s = a ++ trim s ++ b
         /\ Forall (fun c => is_space c = true) a
         /\ Forall (fun c => is_space c = true) b
         /\ starts_with_space (trim s) = false
         /\ ends_with_space (trim s) = false)
  /\ (forall s, substring 0 8000 s = firstn 8000 s)
  /\ extract html = extract_scan html
  /\ (forall a b c, extract html <> a ++ LT :: b ++ GT :: c)
  /\ (forall a c d b,
        extract html = a ++ c :: d :: b ->
        is_space c = true -> is_space d = true -> False).
Proof.
  repeat apply conj.
  - reflexivity.
  - exact strip_script_scan.
  - exact strip_style_scan.
  - exact strip_tags_scan.
  - exact collapse_spaces_scan.
  - exact trim_split.
  - exact (substring_0 8000).
  - with_strategy transparent [extract] unfold extract. unfold extract_scan.
    now rewrite substring_0, strip_script_scan, strip_style_scan, strip_tags_scan,
      collapse_spaces_scan.
  - intros a b c E. apply (extract_no_tag html). now exists a, b, c.
  - intros a c d b E Hc Hd.
    apply (spaces_normal_no_run _ (extract_spaces_normal html)).
    now exists a, c, d, b.
Qed.

(** C5 (as amended).  Extracting the extracted text again gives the
    same text exactly when that text does not end in a whitespace
    character.  It does so in particular whenever the trimmed text has
    at most 8000 code units, so that the cut takes nothing away.  (The
    text can end in whitespace only when the cut falls right after a
    collapsed space.) *)
Theorem extract_idempotent_iff (html : jsstring) :
  (extract (extract html) = extract html <-> ends_with_space (extract html) = false)
  /\ (List.length (trim (collapse_spaces (strip_tags (strip_style (strip_script html)))))
       <= 8000 ->
      extract (extract html) = extract html).
Proof.
  assert (Hiff : extract (extract html) = extract html
                 <-> ends_with_space (extract html) = false).
  { rewrite extract_again. split.
    - intros E. destruct (ends_with_space (extract html)) eqn:He; [|reflexivity].
      apply trim_shrinks in He. apply (f_equal (@List.length _)) in E.
      rewrite length_firstn in E. lia.
    - intros He. rewrite (trim_id _ (extract_starts html) He).
      apply firstn_all2, extract_length. }
  split; [exact Hiff|].
  intros Hlen. apply Hiff.
  with_strategy transparent [extract] unfold extract.
  rewrite substring_0. unfold TEXT_LIMIT. rewrite (firstn_all2 _ Hlen). apply trim_ends.
Qed.

(** C5, the claim as stated, fails on [long_text]: its extraction is
    7999 letters and a space, and extracting that again trims the
    space away. *)
Lemma extract_not_idempotent : extract (extract long_text) <> extract long_text.
Proof.
  rewrite extract_long_text_again, extract_long_text. intros E.
  apply (f_equal (@List.length _)) in E.
  rewrite length_app, !repeat_length in E. cbn [List.length] in E.
  revert E. generalize 7999. intros n E. lia.
Qed.


(** ** The handlers *)

(** C10.  An [OPTIONS] request to either endpoint is answered with
    status 200, no body and the CORS header that admits every origin;
    the store is left as it was and no call is made (the trace is
    empty). *)
Theorem options_preflight (ep : endpoint) (w : World) (st : store) (req : request) :
  method req = "OPTIONS" ->
  exists r,
    run ep w st req = (Ok r, st, [])
    /\ resp_status r = 200%Z
    /\ resp_body r = None
    /\ header "Access-Control-Allow-Origin" (resp_headers r) = Some "*".
Proof.
  intros H. exists preflight. rewrite (run_options ep w st req H).
  repeat split.
Qed.

(** C9.  A required field that is present but falsy (the number 0 or
    the empty string) is rejected like a missing one: status 400, the
    error ["<name> is required"], the very response the same request
    without that field gets, the store untouched and no call made. *)
Theorem falsy_field_rejected (ep : endpoint) (w : World) (st : store) (req : request)
        (fields : list (string * jsval)) (k : string) :
  method req <> "OPTIONS" ->
  req_json req = Ok (JObj fields) ->
  In k (required_fields ep) ->
  lookup k fields = JNum 0 \/ lookup k fields = JStr [] ->
  exists label,
    In label ["URL"; "url_id"; "prompt_id"]
    /\ run ep w st req
       = (Ok (json_response 400 [("error", JStr (s16 label ++ s16 " is required"))]),
          st, [])
    /\ run ep w st {| method := method req;
                      req_json := Ok (JObj (remove_field k fields)) |}
       = run ep w st req.
Proof.
  intros Hm Hj Hk Hv.
  assert (Hf : truthy (lookup k fields) = false) by (destruct Hv as [-> | ->]; reflexivity).
  set (req' := {| method := method req; req_json := Ok (JObj (remove_field k fields)) |}).
  assert (Hm' : method req' <> "OPTIONS") by exact Hm.
  assert (Hj' : req_json req' = Ok (JObj (remove_field k fields))) by reflexivity.
  set (first := hd "" (required_fields ep)).
  assert (Hfirst : k = first \/ (k = "prompt_id" /\ first <> "prompt_id")).
  { subst first. destruct ep; simpl in Hk; destruct Hk as [<-|[<-|[]]]; simpl;
      first [now left | right; split; [reflexivity | discriminate]]. }
  destruct Hfirst as [-> | [-> Hne]].
  - exists (match ep with SummerizeUrl => "URL" | ProcessUrl => "url_id" end). split; [|split].
    + destruct ep; simpl; auto.
    + now apply run_first_field_falsy with (fields := fields).
    + rewrite (run_first_field_falsy ep w st req fields Hm Hj Hf).
      apply run_first_field_falsy with (fields := remove_field first fields); trivial.
      fold first. now rewrite lookup_remove_same.
  - destruct (truthy (lookup first fields)) eqn:H1.
    + exists "prompt_id". split; [|split].
      * simpl; auto.
      * now apply run_prompt_id_falsy with (fields := fields).
      * rewrite (run_prompt_id_falsy ep w st req fields Hm Hj H1 Hf).
        apply run_prompt_id_falsy with (fields := remove_field "prompt_id" fields); trivial.
        -- fold first. now rewrite lookup_remove_other.
        -- now rewrite lookup_remove_same.
    + exists (match ep with SummerizeUrl => "URL" | ProcessUrl => "url_id" end). split; [|split].
      * destruct ep; simpl; auto.
      * now apply run_first_field_falsy with (fields := fields).
      * rewrite (run_first_field_falsy ep w st req fields Hm Hj H1).
        apply run_first_field_falsy with (fields := remove_field "prompt_id" fields); trivial.
        fold first. now rewrite lookup_remove_other.
Qed.

(** Reading a member of a response body. *)
Ltac body_fields :=
  unfold body_field, json_response, JSON_stringify;
  cbn [resp_body resp_status filter snd fst defined lookup String.eqb Ascii.eqb Bool.eqb
       output_field ins_ai_response ins_url_id ins_scraped_data ins_prompt_id].

(** Rewriting with what is known to be defined in a response body. *)
Ltac known_defined :=
  repeat match goal with
    | H : truthy ?v = true |- context [defined ?v] => rewrite (truthy_defined v H)
    | H : first_choice _ = Ok ?v |- context [defined ?v] =>
        rewrite (truthy_defined v (first_choice_truthy _ _ H))
    | |- context [defined (opt_str ?o)] => rewrite (defined_opt_str o)
    end;
  cbn [lookup String.eqb Ascii.eqb Bool.eqb].

(** The tests a run has passed, as equations. *)
Ltac passed_tests :=
  repeat match goal with
    | H : negb _ = false |- _ => apply negb_false_iff in H
    | H : negb _ = true |- _ => apply negb_true_iff in H
    end.

(** The request members the handler read, in terms of [req_field]. *)
Ltac read_fields req :=
  repeat match goal with
    | Hj : req_json req = Ok ?b, Hd : destructure ?b ?k0 = Ok ?f |- _ =>
        pose proof (req_field_read req b f k0 "url" Hj Hd);
        pose proof (req_field_read req b f k0 "url_id" Hj Hd);
        pose proof (req_field_read req b f k0 "prompt_id" Hj Hd);
        clear Hd
    end.

(** C1.  In both flows, when the [url_summery] insert fails (after the
    completion call succeeded, the only way to reach it), the handler
    still answers with status 200 and [success: true], the model output,
    the identifier of the URL record (which is in the store) and
    [summery_id: null]; the failure only shows as one [console.error]
    line. *)
Theorem summery_write_failure_is_not_fatal
        (ep : endpoint) (w : World) (st : store) (req : request)
        (resp : result response) (st' : store) (tr : list event)
        (row : summery_insert) (e : pg_error) :
  run ep w st req = (resp, st', tr) ->
  In (DbInsertUrlSummery row (DbErr e)) tr ->
  exists r,
    resp = Ok r
    /\ resp_status r = 200%Z
    /\ body_field "success" r = JBool true
    /\ body_field (output_field ep) r = ins_ai_response row
    /\ body_field "url_id" r = ins_url_id row
    /\ body_field "summery_id" r = JNull
    /\ In (Console LError [js "Failed to save to url_summery:"; error_val e]) tr
    /\ (exists auth body reply data,
          In (HttpPostCompletion auth body (Ok reply)) tr
          /\ ok reply = true /\ json reply = Ok data
          /\ first_choice data = Ok (ins_ai_response row))
    /\ (exists urow, url_committed ep tr (ins_url_id row) urow /\ In urow (urls st')).
Proof.
  intros H Hin. revert H.
  destruct ep; exec; intros H; injection H as <- <- <-; in_cases Hin;
    injection Hin as <- <-;
    passed_tests;
    match goal with H : insert_summery _ _ _ = _ |- _ =>
      pose proof (insert_summery_urls _ _ _ _ _ H) as Hu end;
    try match goal with H : insert_url _ _ _ _ = _ |- _ =>
      apply insert_url_ok in H as [Hrow _] end;
    try match goal with H : select_url _ _ _ = DbOk _ |- _ =>
      apply select_single_inv in H as [Hrow _] end;
    (eexists; split; [reflexivity|]);
    body_fields; known_defined;
    (repeat apply conj;
     [ reflexivity | reflexivity | reflexivity | reflexivity | reflexivity
     | in_list
     | do 4 eexists; split; [in_list | repeat apply conj; eassumption]
     | eexists; split;
       [ first [ solve [in_list] | split; [reflexivity | do 2 eexists; in_list] ]
       | now rewrite Hu ] ]).
Qed.

(** C7.  Every completion call, in either flow, posts one message of
    role [user] whose content is the prompt text, a blank line,
    ["Website URL: "] and the fetched URL (as the template literal
    converts it), a line break, ["Content: "] and the extracted text,
    with model [gpt-3.5-turbo], [max_tokens] 500 and [temperature]
    0.7. *)
Theorem completion_request_shape
        (ep : endpoint) (w : World) (st : store) (req : request)
        (resp : result response) (st' : store) (tr : list event)
        (auth : jsstring) (body : chat_request) (res : result http_response) :
  run ep w st req = (resp, st', tr) ->
  In (HttpPostCompletion auth body res) tr ->
  exists p u url_text ua page html,
    In (DbSelectPrompts (req_field "prompt_id" req) (DbOk p)) tr
    /\ fetched_url ep req tr u
    /\ ToString u = Ok url_text
    /\ In (HttpGet u ua (Ok page)) tr
    /\ text page = Ok html
    /\ body = {| model := "gpt-3.5-turbo";
                 messages :=
                   [{| role := "user";
                       content := prompt p ++ [LF; LF] ++ s16 "Website URL: "
                                    ++ url_text ++ [LF] ++ s16 "Content: "
                                    ++ extract html |}];
                 max_tokens := 500;
                 temperature := 7 # 10 |}.
Proof.
  intros H Hin. revert H.
  destruct ep; exec; intros H; injection H as <- <- <-; in_cases Hin;
    injection Hin as <- <- <-;
    read_fields req;
    do 6 eexists;
    (repeat apply conj;
     [ match goal with H : req_field "prompt_id" _ = _ |- _ => rewrite H end; in_list
     | cbn [fetched_url];
       first [ match goal with H : req_field "url" _ = _ |- _ => exact (eq_sym H) end
             | match goal with H : req_field "url_id" _ = _ |- _ => rewrite H end;
               eexists; split; [in_list | reflexivity] ]
     | first [ eassumption | apply ToString_str ]
     | in_list
     | eassumption
     | reflexivity ]).
Qed.

(** C3.  The extracted text is never longer than 8000 code units.  In
    every run that reaches the completion call the very same text (the
    extraction of the fetched page) ends the user message; whenever
    that call yields a model output the [url_summery] insert is made,
    with that text as [scraped_data] and that output as
    [ai_response]; and a row the store creates for it holds the
    text. *)
Theorem scraped_text_bounded_and_shared :
  (forall html, List.length (extract html) <= 8000)
  /\ forall (ep : endpoint) (w : World) (st : store) (req : request)
            (resp : result response) (st' : store) (tr : list event)
            (auth : jsstring) (body : chat_request) (res : result http_response),
      run ep w st req = (resp, st', tr) ->
      In (HttpPostCompletion auth body res) tr ->
      exists u ua page html prefix,
        In (HttpGet u ua (Ok page)) tr
        /\ text page = Ok html
        /\ List.length (extract html) <= 8000
        /\ messages body
           = [{| role := "user";
                 content := prefix ++ s16 "Content: " ++ extract html |}]
        /\ (forall output,
              completion_output res = Ok output ->
              exists row r,
                In (DbInsertUrlSummery row r) tr
                /\ ins_scraped_data row = extract html
                /\ ins_ai_response row = output)
        /\ (forall row r,
              In (DbInsertUrlSummery row r) tr ->
              ins_scraped_data row = extract html)
        /\ (forall row srow,
              In (DbInsertUrlSummery row (DbOk srow)) tr ->
              scraped_data srow = Some (extract html)
              /\ In srow (url_summery st')).
Proof.
  split; [exact extract_length|].
  intros ep w st req resp st' tr auth body res H Hin. revert H.
  destruct ep; exec; intros H; injection H as <- <- <-; in_cases Hin;
    injection Hin as <- <- <-;
    do 4 eexists;
    match goal with
    | |- context [completion_body ?p ?u _] =>
        exists (p ++ [LF; LF] ++ s16 "Website URL: " ++ u ++ [LF])
    end;
    (repeat apply conj;
     [ in_list
     | eassumption
     | apply extract_length
     | cbn [messages completion_body]; unfold user_content;
       now rewrite <- !app_assoc
     | unfold completion_output; cbn [negb];
       repeat match goal with
         | H : negb (ok _) = _ |- _ => rewrite H
         | H : text _ = _ |- _ => rewrite H
         | H : json _ = _ |- _ => rewrite H
         | H : first_choice _ = _ |- _ => rewrite H
         end;
       intros output Ho; try discriminate Ho; injection Ho as <-;
       do 2 eexists; (repeat apply conj; [in_list | reflexivity | reflexivity])
     | intros row r Hr; in_cases Hr; now injection Hr as <- <-
     | intros row srow Hr; in_cases Hr; injection Hr as <- <-;
       match goal with
       | Hs : insert_summery _ _ _ = _ |- _ =>
           apply insert_summery_ok in Hs as [Hs1 Hs2];
           cbn [ins_scraped_data] in Hs2; now split
       end ]).
Qed.

(** C6 (as amended).  Analyze-Existing, for a request whose [url_id]
    matches no stored URL record: no [url_summery] insert is made and
    the store is left as it was.  The status is 404 when the request is
    not a preflight, carries a truthy [url_id] and [prompt_id], and
    both can be written into the log line; it is 400 when one of them
    is missing or falsy, when the body cannot be read, or when one of
    them is an object the log line's template literal cannot convert;
    and it is 200 for a preflight. *)
Theorem unknown_url_id_inserts_nothing
        (w : World) (st : store) (req : request)
        (resp : result response) (st' : store) (tr : list event) :
  (forall urow, In urow (urls st) ->
                pg_bigint (db_env w) (req_field "url_id" req) <> Accepted (url_id urow)) ->
  run ProcessUrl w st req = (resp, st', tr) ->
  st' = st
  /\ (forall row r, ~ In (DbInsertUrlSummery row r) tr)
  /\ exists r,
       resp = Ok r
       /\ resp_status r
          = if method req =? "OPTIONS" then 200%Z
            else if truthy (req_field "url_id" req) && truthy (req_field "prompt_id" req)
                    && converts (req_field "url_id" req)
                    && converts (req_field "prompt_id" req)
                 then 404%Z
                 else 400%Z.
Proof.
  intros Hno H. revert H.
  set (expected := if method req =? "OPTIONS" then _ else _).
  exec; intros H; injection H as <- <- <-;
    try match goal with
      | Hj : req_json req = Ok ?b, Hd : destructure ?b _ = Ok ?f,
        Hs : select_url _ _ _ = DbOk ?u |- _ =>
          exfalso; apply select_single_inv in Hs as [Hs1 Hs2];
          apply (Hno u Hs1); now rewrite (req_field_read req b f _ "url_id" Hj Hd)
      end;
    (split; [reflexivity|]); (split; [intros row r0 Hr; in_cases Hr|]);
    eexists; (split; [reflexivity|]); cbn [resp_status json_response preflight];
    subst expected;
    repeat match goal with
      | H : (method req =? "OPTIONS") = _ |- _ => rewrite H
      end;
    try reflexivity;
    try (unfold req_field;
         match goal with H : req_json req = Throw _ |- _ => rewrite H end; reflexivity);
    try (unfold req_field;
         match goal with
         | H : req_json req = Ok ?b, Hd : destructure ?b _ = Throw _ |- _ =>
             rewrite H; destruct b; try discriminate Hd; reflexivity
         end);
    read_fields req; unfold converts;
    repeat match goal with
      | H : req_field _ req = _ |- _ => rewrite H
      end;
    passed_tests;
    repeat match goal with
      | H : truthy _ = _ |- _ => rewrite H
      | H : ToString _ = _ |- _ => rewrite H
      end;
    cbn [andb];
    repeat match goal with
      | |- context [truthy ?v] => destruct (truthy v)
      | |- context [ToString ?v] => destruct (ToString v)
      end;
    reflexivity.
Qed.

Lemma first_choice_read (data choices choice : jsval) :
  get_member data "choices" = Ok choices ->
  get_first choices = Ok choice ->
  first_choice data
  = Ok (js_or (opt_member (opt_member choice "message") "content") NO_RESPONSE).
Proof. intros H1 H2. unfold first_choice. now rewrite H1, H2. Qed.

(** C8 (as amended).  When the completion service answers with a 2xx
    status and a body that decodes to [data], and [data.choices[0]] can
    be read ([data] and [data.choices] are neither [null] nor
    [undefined]), the model output is the first choice's message
    content if that content is truthy and the placeholder
    ["No response generated"] otherwise (content absent, [null], empty
    string, ...); the handler then makes the [url_summery] insert with
    that output, and unless the store answers that insert with neither
    data nor error it reports the output with status 200. *)
Theorem first_choice_or_placeholder
        (ep : endpoint) (w : World) (st : store) (req : request)
        (resp : result response) (st' : store) (tr : list event)
        (auth : jsstring) (body : chat_request) (reply : http_response)
        (data choices choice : jsval) :
  run ep w st req = (resp, st', tr) ->
  In (HttpPostCompletion auth body (Ok reply)) tr ->
  ok reply = true ->
  json reply = Ok data ->
  get_member data "choices" = Ok choices ->
  get_first choices = Ok choice ->
  let content := opt_member (opt_member choice "message") "content" in
  let output := if truthy content then content else js "No response generated" in
  exists row res r,
    In (DbInsertUrlSummery row res) tr
    /\ ins_ai_response row = output
    /\ resp = Ok r
    /\ (res <> DbNone ->
        resp_status r = 200%Z
        /\ body_field (output_field ep) r = output).
Proof.
  intros H Hin Hok Hjson Hc Hf content output.
  pose proof (first_choice_read data choices choice Hc Hf) as Hfc.
  fold content in Hfc. change (js_or content NO_RESPONSE) with output in Hfc.
  assert (Hd : defined output = true).
  { apply truthy_defined, (first_choice_truthy data). exact Hfc. }
  clearbody output. clear Hc Hf. revert H.
  destruct ep; exec; intros H; injection H as <- <- <-; in_cases Hin;
    injection Hin as <- <- <-;
    try (rewrite Hok in *; discriminate);
    try congruence;
    match goal with
    | H1 : json ?a = Ok ?d1, H2 : first_choice ?d1 = Ok ?v |- _ =>
        assert (v = output) by congruence; subst v
    end;
    passed_tests;
    do 3 eexists;
    (repeat apply conj; [in_list | reflexivity | reflexivity |]);
    intros Hres; try (exfalso; apply Hres; reflexivity);
    (split; [reflexivity|]);
    body_fields; known_defined; rewrite ?Hd; reflexivity.
Qed.

(** C2 (as amended).  Ingest-and-Analyze, for an error response given
    after the URL record was created: it is one of four responses, and
    each carries [error] and the [url_id] of the created record.  Only
    the one of the inner [catch] clause carries all of [details],
    [url], [created_at] and [processed: false] as well; it is given
    when a completion call was made (and failed, or the [url_summery]
    reply could not be read), when the request's [prompt_id] or [url]
    cannot be converted to a string (for the filter of the [prompts]
    read, for the log line), or when the [prompts] reply held neither
    data nor error.  The responses for a missing prompt and for
    a failed scrape carry [details] but none of [url], [created_at],
    [processed]; the one for a missing API key carries [error] and
    [url_id] alone. *)
Theorem partial_failure_fields
        (w : World) (st : store) (req : request)
        (r : response) (st' : store) (tr : list event)
        (url : jsval) (caption : jsstring) (urow : url_row) :
  run SummerizeUrl w st req = (Ok r, st', tr) ->
  In (DbInsertUrls url caption (DbOk urow)) tr ->
  resp_status r <> 200%Z ->
  (exists msg, body_field "error" r = JStr msg)
  /\ body_field "url_id" r = JNum (url_id urow)
  /\ ((exists e,
         In (DbSelectPrompts (req_field "prompt_id" req) (DbErr e)) tr
         /\ r = json_response 404
                  [("error", js "Failed to fetch prompt from database");
                   ("details", JStr (pg_message e));
                   ("url_id", JNum (url_id urow))])
      \/ (exists details,
            (forall auth body res, ~ In (HttpPostCompletion auth body res) tr)
            /\ r = json_response 500
                     [("error", js "Failed to scrape URL content");
                      ("details", JStr details);
                      ("url_id", JNum (url_id urow))])
      \/ (truthy (env_val (OPENAI_API_KEY w)) = false
          /\ r = json_response 500
                   [("error", js "OpenAI API key not configured");
                    ("url_id", JNum (url_id urow))])
      \/ (exists details,
            r = json_response 500
                  [("error", js "URL saved but AI processing failed");
                   ("details", JStr details);
                   ("url_id", JNum (url_id urow));
                   ("url", JStr (url_url urow));
                   ("created_at", JStr (url_created_at urow));
                   ("processed", JBool false)]
            /\ ((exists auth body res, In (HttpPostCompletion auth body res) tr)
                \/ (exists e, ToString (req_field "prompt_id" req) = Throw e
                              /\ details = message e)
                \/ (exists e, ToString (req_field "url" req) = Throw e
                              /\ details = message e)
                \/ In (DbSelectPrompts (req_field "prompt_id" req) DbNone) tr))).
Proof.
  intros H Hin Hst. revert H.
  exec; intros H; injection H as <- <- <-; in_cases Hin;
    injection Hin as <- <- <-;
    try (exfalso; apply Hst; reflexivity);
    read_fields req;
    (split; [eexists; reflexivity|]); (split; [reflexivity|]);
    first
      [ left; eexists; split;
        [ match goal with H : req_field "prompt_id" _ = _ |- _ => rewrite H end;
          solve [in_list]
        | reflexivity ]
      | right; left; eexists; split;
        [ intros auth body res Hc; solve [in_cases Hc] | reflexivity ]
      | right; right; left; split;
        [ now apply negb_true_iff | reflexivity ]
      | right; right; right; eexists; split; [reflexivity|];
        first
          [ left; do 3 eexists; solve [in_list]
          | right; left; eexists; split;
            [ match goal with H : req_field "prompt_id" _ = _ |- _ => rewrite H end;
              eassumption
            | reflexivity ]
          | right; right; left; eexists; split;
            [ match goal with H : req_field "url" _ = _ |- _ => rewrite H end;
              eassumption
            | reflexivity ]
          | right; right; right;
            match goal with H : req_field "prompt_id" _ = _ |- _ => rewrite H end;
            solve [in_list] ] ].
Qed.

(** ** The claims on concrete runs *)

Lemma options_preflight_witness :
  method preflight_request = "OPTIONS"
  /\ exists r,
       run ProcessUrl demo_world demo_store preflight_request = (Ok r, demo_store, [])
       /\ resp_status r = 200%Z
       /\ resp_body r = None
       /\ header "Access-Control-Allow-Origin" (resp_headers r) = Some "*".
Proof.
  split; [reflexivity|].
  apply (options_preflight ProcessUrl demo_world demo_store preflight_request).
  reflexivity.
Defined.

Lemma falsy_field_rejected_witness :
  exists label,
    In label ["URL"; "url_id"; "prompt_id"]
    /\ run ProcessUrl demo_world demo_store (post [("url_id", JNum 0); ("prompt_id", JNum 1)])
       = (Ok (json_response 400 [("error", JStr (s16 label ++ s16 " is required"))]),
          demo_store, [])
    /\ run ProcessUrl demo_world demo_store
         {| method := "POST";
            req_json := Ok (JObj (remove_field "url_id"
                                    [("url_id", JNum 0); ("prompt_id", JNum 1)])) |}
       = run ProcessUrl demo_world demo_store
           (post [("url_id", JNum 0); ("prompt_id", JNum 1)]).
Proof.
  apply (falsy_field_rejected ProcessUrl demo_world demo_store
           (post [("url_id", JNum 0); ("prompt_id", JNum 1)])
           [("url_id", JNum 0); ("prompt_id", JNum 1)] "url_id").
  - discriminate.
  - reflexivity.
  - simpl. now left.
  - left. reflexivity.
Defined.

Lemma summery_write_failure_witness :
  In (DbInsertUrlSummery summery_of_ingest (DbErr unreachable))
     (snd (run SummerizeUrl failing_world demo_store ingest_request))
  /\ exists r,
       fst (fst (run SummerizeUrl failing_world demo_store ingest_request)) = Ok r
       /\ resp_status r = 200%Z
       /\ body_field "success" r = JBool true
       /\ body_field "summary" r = js "A short page."
       /\ body_field "url_id" r = JNum 2
       /\ body_field "summery_id" r = JNull.
Proof.
  assert (Hin : In (DbInsertUrlSummery summery_of_ingest (DbErr unreachable))
                   (snd (run SummerizeUrl failing_world demo_store ingest_request))).
  { vm_compute. in_list. }
  split; [exact Hin|].
  destruct (summery_write_failure_is_not_fatal SummerizeUrl failing_world demo_store
              ingest_request _ _ _ summery_of_ingest unreachable
              (run_parts _ _ _ _) Hin)
    as (r & Hr & H1 & H2 & H3 & H4 & H5 & _).
  exists r. repeat apply conj; assumption.
Defined.

Lemma partial_failure_fields_witness :
  In (DbInsertUrls (js "https://example.com")
        (s16 "URL added at 2025-01-01T00:00:00.000Z") (DbOk new_row))
     (snd (run SummerizeUrl demo_world demo_store missing_prompt_request))
  /\ fst (fst (run SummerizeUrl demo_world demo_store missing_prompt_request))
     = Ok (json_response 404
             [("error", js "Failed to fetch prompt from database");
              ("details", JStr (pg_message not_single_row));
              ("url_id", JNum 2)])
  /\ body_field "url_id"
       (json_response 404
          [("error", js "Failed to fetch prompt from database");
           ("details", JStr (pg_message not_single_row));
           ("url_id", JNum 2)])
     = JNum (url_id new_row).
Proof.
  assert (Hin : In (DbInsertUrls (js "https://example.com")
                      (s16 "URL added at 2025-01-01T00:00:00.000Z") (DbOk new_row))
                   (snd (run SummerizeUrl demo_world demo_store missing_prompt_request))).
  { vm_compute. in_list. }
  assert (Hresp : fst (fst (run SummerizeUrl demo_world demo_store missing_prompt_request))
                  = Ok (json_response 404
                          [("error", js "Failed to fetch prompt from database");
                           ("details", JStr (pg_message not_single_row));
                           ("url_id", JNum 2)])).
  { vm_compute. reflexivity. }
  repeat apply conj; [exact Hin | exact Hresp |].
  refine (proj1 (proj2 (partial_failure_fields demo_world demo_store missing_prompt_request
                          _ _ _ _ _ new_row _ Hin _))).
  - rewrite <- Hresp. apply run_parts.
  - discriminate.
Defined.

(** C2, the claim as stated, fails when the prompt is missing: the URL
    record is created (and stays in the store), and the 404 response
    carries [error], [details] and [url_id] but none of [url],
    [created_at] and [processed]. *)
Lemma prompt_failure_lacks_fields :
  let '(resp, st', tr) := run SummerizeUrl demo_world demo_store missing_prompt_request in
  In (DbInsertUrls (js "https://example.com")
        (s16 "URL added at 2025-01-01T00:00:00.000Z") (DbOk new_row)) tr
  /\ In new_row (urls st')
  /\ exists r,
       resp = Ok r
       /\ resp_status r = 404%Z
       /\ body_field "error" r = js "Failed to fetch prompt from database"
       /\ body_field "url_id" r = JNum 2
       /\ body_field "url" r = JUndefined
       /\ body_field "created_at" r = JUndefined
       /\ body_field "processed" r = JUndefined.
Proof.
  vm_compute. split; [in_list|]. split; [in_list|].
  eexists. repeat apply conj; reflexivity.
Qed.

Lemma scraped_text_witness :
  exists u ua page html prefix,
    In (HttpGet u ua (Ok page)) (snd (run SummerizeUrl demo_world demo_store ingest_request))
    /\ text page = Ok html
    /\ List.length (extract html) <= 8000
    /\ messages demo_completion_body
       = [{| role := "user"; content := prefix ++ s16 "Content: " ++ extract html |}]
    /\ (forall output,
          completion_output (Ok (completion_response (completion_of (js "A short page."))))
          = Ok output ->
          exists row r,
            In (DbInsertUrlSummery row r)
               (snd (run SummerizeUrl demo_world demo_store ingest_request))
            /\ ins_scraped_data row = extract html
            /\ ins_ai_response row = output)
    /\ (forall row r,
          In (DbInsertUrlSummery row r)
             (snd (run SummerizeUrl demo_world demo_store ingest_request)) ->
          ins_scraped_data row = extract html)
    /\ (forall row srow,
          In (DbInsertUrlSummery row (DbOk srow))
             (snd (run SummerizeUrl demo_world demo_store ingest_request)) ->
          scraped_data srow = Some (extract html)
          /\ In srow (url_summery
                        (snd (fst (run SummerizeUrl demo_world demo_store ingest_request))))).
Proof.
  apply (proj2 scraped_text_bounded_and_shared SummerizeUrl demo_world demo_store
           ingest_request _ _ _ (s16 "Bearer sk-test") demo_completion_body
           (Ok (completion_response (completion_of (js "A short page."))))
           (run_parts _ _ _ _)).
  vm_compute. in_list.
Defined.

Lemma unknown_url_id_witness :
  snd (fst (run ProcessUrl demo_world demo_store unknown_url_request)) = demo_store
  /\ (forall row r,
        ~ In (DbInsertUrlSummery row r)
             (snd (run ProcessUrl demo_world demo_store unknown_url_request)))
  /\ exists r,
       fst (fst (run ProcessUrl demo_world demo_store unknown_url_request)) = Ok r
       /\ resp_status r = 404%Z.
Proof.
  assert (Hno : forall urow, In urow (urls demo_store) ->
                  pg_bigint (db_env demo_world) (req_field "url_id" unknown_url_request)
                  <> Accepted (url_id urow)).
  { intros urow Hin. vm_compute in Hin. destruct Hin as [<-|[]]. vm_compute. discriminate. }
  destruct (unknown_url_id_inserts_nothing demo_world demo_store unknown_url_request
              _ _ _ Hno (run_parts _ _ _ _)) as (H1 & H2 & r & Hr & Hs).
  repeat apply conj; [exact H1 | exact H2 |].
  exists r. split; [exact Hr|]. rewrite Hs. vm_compute. reflexivity.
Defined.

(** C6, the claim as stated, fails for a request of the documented
    form: the [url_id] 0 matches no stored URL record, and the status
    is 400.  So it does for a [url_id] that is an object with a
    [toString] member: the log line of the handler throws on it. *)
Lemma unknown_url_id_can_be_400 :
  (forall urow, In urow (urls demo_store) ->
                pg_bigint demo_env (JNum 0) <> Accepted (url_id urow))
  /\ run ProcessUrl demo_world demo_store (post [("url_id", JNum 0); ("prompt_id", JNum 1)])
     = (Ok (json_response 400 [("error", js "url_id is required")]), demo_store, [])
  /\ (forall urow, In urow (urls demo_store) ->
                   pg_bigint demo_env (JObj [("toString", JNum 1)]) <> Accepted (url_id urow))
  /\ fst (fst (run ProcessUrl demo_world demo_store
                 (post [("url_id", JObj [("toString", JNum 1)]); ("prompt_id", JNum 1)])))
     = Ok (json_response 400
             [("error", js "Invalid request body or internal error");
              ("details", js "Cannot convert object to primitive value")])
  /\ (forall id res,
        ~ In (DbSelectUrls id res)
             (snd (run ProcessUrl demo_world demo_store
                     (post [("url_id", JObj [("toString", JNum 1)]);
                            ("prompt_id", JNum 1)])))).
Proof.
  repeat apply conj.
  - intros urow [<-|[]]. discriminate.
  - vm_compute. reflexivity.
  - intros urow [<-|[]]. discriminate.
  - vm_compute. reflexivity.
  - intros id res H. vm_compute in H.
    repeat (destruct H as [H|H]; [discriminate H|]). exact H.
Qed.

Lemma completion_request_witness :
  exists p u url_text ua page html,
    In (DbSelectPrompts (req_field "prompt_id" analyze_request) (DbOk p))
       (snd (run ProcessUrl demo_world demo_store analyze_request))
    /\ fetched_url ProcessUrl analyze_request
         (snd (run ProcessUrl demo_world demo_store analyze_request)) u
    /\ ToString u = Ok url_text
    /\ In (HttpGet u ua (Ok page)) (snd (run ProcessUrl demo_world demo_store analyze_request))
    /\ text page = Ok html
    /\ demo_completion_body
       = {| model := "gpt-3.5-turbo";
            messages :=
              [{| role := "user";
                  content := prompt p ++ [LF; LF] ++ s16 "Website URL: "
                               ++ url_text ++ [LF] ++ s16 "Content: "
                               ++ extract html |}];
            max_tokens := 500;
            temperature := 7 # 10 |}.
Proof.
  apply (completion_request_shape ProcessUrl demo_world demo_store analyze_request
           _ _ _ (s16 "Bearer sk-test") demo_completion_body
           (Ok (completion_response (completion_of (js "A short page."))))
           (run_parts _ _ _ _)).
  vm_compute. in_list.
Defined.

Lemma first_choice_witness :
  exists row res r,
    In (DbInsertUrlSummery row res)
       (snd (run SummerizeUrl demo_world demo_store ingest_request))
    /\ ins_ai_response row = js "A short page."
    /\ fst (fst (run SummerizeUrl demo_world demo_store ingest_request)) = Ok r
    /\ (res <> DbNone ->
        resp_status r = 200%Z
        /\ body_field "summary" r = js "A short page.").
Proof.
  apply (first_choice_or_placeholder SummerizeUrl demo_world demo_store ingest_request
           _ _ _ (s16 "Bearer sk-test") demo_completion_body
           (completion_response (completion_of (js "A short page.")))
           (completion_of (js "A short page."))
           (JArr [JObj [("message", JObj [("content", js "A short page.")])]])
           (JObj [("message", JObj [("content", js "A short page.")])])
           (run_parts _ _ _ _)).
  - vm_compute. in_list.
  - reflexivity.
  - reflexivity.
  - reflexivity.
  - reflexivity.
Defined.

(** C8, the claim as stated, fails twice.  A first choice whose content
    is the empty string is present, and still the output is the
    placeholder; and a reply whose body is [{}] does not get the
    placeholder: the handler answers 500 and makes no [url_summery]
    insert. *)
Lemma placeholder_counterexamples :
  (first_choice (completion_of (JStr [])) = Ok (js "No response generated")
   /\ opt_member (opt_member (JObj [("message", JObj [("content", JStr [])])]) "message")
                 "content" = JStr []
   /\ exists r,
        fst (fst (run SummerizeUrl empty_content_world demo_store ingest_request)) = Ok r
        /\ body_field "summary" r = js "No response generated")
  /\ (exists e, first_choice (JObj []) = Throw e)
  /\ (exists r,
        fst (fst (run SummerizeUrl no_choices_world demo_store ingest_request)) = Ok r
        /\ resp_status r = 500%Z
        /\ body_field "error" r = js "URL saved but AI processing failed"
        /\ body_field "processed" r = JBool false)
  /\ forall row res,
       ~ In (DbInsertUrlSummery row res)
            (snd (run SummerizeUrl no_choices_world demo_store ingest_request)).
Proof.
  repeat apply conj.
  - reflexivity.
  - reflexivity.
  - eexists. split; vm_compute; reflexivity.
  - eexists. reflexivity.
  - eexists. repeat apply conj; vm_compute; reflexivity.
  - intros row res H. vm_compute in H.
    repeat (destruct H as [H|H]; [discriminate H|]). exact H.
Qed.

Lemma extract_idempotent_witness :
  extract (extract demo_page) = extract demo_page.
Proof.
  apply (proj2 (extract_idempotent_iff demo_page)).
  apply Nat.leb_le. vm_compute. reflexivity.
Defined.
(* ================================================================== *)
(** * Part IV.  Further properties                                      *)
(* ================================================================== *)

(** ** The pipeline as a whole *)

(** X1.  Every response: no error escapes a handler, the status is one of
    four, and the header that admits every origin is there. *)
Theorem responses_are_cors_json (ep : endpoint) (w : World) (st : store) (req : request) :
  exists r,
    fst (fst (run ep w st req)) = Ok r
    /\ In (resp_status r) [200; 400; 404; 500]%Z
    /\ header "Access-Control-Allow-Origin" (resp_headers r) = Some "*".
Proof.
  destruct ep; exec; eexists; (split; [reflexivity|]);
    (split; [cbn; tauto | reflexivity]).
Qed.

(** X2.  The calls of a run are an initial part of the endpoint's pipeline:
    each call is made at most once, in the fixed order, and a later one
    only after every earlier one. *)
Theorem calls_follow_pipeline (ep : endpoint) (w : World) (st : store) (req : request) :
  exists rest, pipeline ep = calls (snd (run ep w st req)) ++ rest.
Proof.
  destruct ep; exec; cbn [calls kind app pipeline]; eexists; reflexivity.
Qed.

(** X3.  The store only grows, and by the rows the successful inserts of the
    trace report: [prompts] is never written, [urls] only by
    Ingest-and-Analyze, and at most one row is added to each table. *)
Theorem store_only_grows (ep : endpoint) (w : World) (st : store) (req : request) :
  let '(_, st', tr) := run ep w st req in
  prompts st' = prompts st
  /\ urls st' = urls st ++ inserted_urls tr
  /\ url_summery st' = url_summery st ++ inserted_summeries tr
  /\ List.length (inserted_urls tr) <= 1
  /\ List.length (inserted_summeries tr) <= 1
  /\ (ep = ProcessUrl -> inserted_urls tr = []).
Proof.
  destruct ep; exec;
    repeat match goal with
      | H : insert_url _ _ _ _ = _ |- _ => apply insert_url_frame in H as (? & ? & ?)
      | H : insert_summery _ _ _ = _ |- _ => apply insert_summery_frame in H as (? & ? & ?)
      end;
    cbn [inserted_urls inserted_summeries List.length fst snd];
    repeat apply conj;
    first [ lia | discriminate | reflexivity
          | now rewrite ?app_nil_r
          | congruence ].
Qed.


(** X4.  Ingest-and-Analyze: a failed [urls] insert ends the run.  The
    response is the 500 with the store's error, the store is as it was,
    and the insert is the only call made. *)
Theorem url_insert_failure_is_fatal
        (w : World) (st : store) (req : request)
        (url : jsval) (caption : jsstring) (e : pg_error) :
  In (DbInsertUrls url caption (DbErr e)) (snd (run SummerizeUrl w st req)) ->
  run SummerizeUrl w st req
  = (Ok (json_response 500
           [("error", js "Failed to save URL to database");
            ("details", JStr (pg_message e));
            ("code", pg_code e);
            ("hint", pg_hint e)]),
     st,
     [DbInsertUrls url caption (DbErr e);
      Console LError [js "Database insert error:"; error_val e]]).
Proof.
  exec; intros Hin; in_cases Hin; injection Hin as <- <- <-;
    match goal with H : insert_url _ _ _ _ = _ |- _ =>
      apply insert_url_err in H; [subst | reflexivity] end;
    reflexivity.
Qed.

(** X5.  Ingest-and-Analyze: once the URL record is created it stays in the
    store, and the response, success or failure, carries its
    identifier. *)
Theorem url_record_is_kept
        (w : World) (st : store) (req : request)
        (url : jsval) (caption : jsstring) (urow : url_row) :
  In (DbInsertUrls url caption (DbOk urow)) (snd (run SummerizeUrl w st req)) ->
  In urow (urls (snd (fst (run SummerizeUrl w st req))))
  /\ exists r,
       fst (fst (run SummerizeUrl w st req)) = Ok r
       /\ body_field "url_id" r = JNum (url_id urow).
Proof.
  exec; intros Hin; in_cases Hin; injection Hin as <- <- <-;
    match goal with H : insert_url _ _ _ _ = _ |- _ => apply insert_url_ok in H as [Hrow _] end;
    try match goal with H : insert_summery _ _ _ = _ |- _ =>
          apply insert_summery_urls in H; rewrite H end;
    (split; [exact Hrow|]); eexists; (split; [reflexivity|]); reflexivity.
Qed.

(** X6.  Without an API key (unset, or the empty string) no completion
    request is sent, no [url_summery] row is written, and no request
    other than a preflight is answered with 200. *)
Theorem no_key_no_completion
        (ep : endpoint) (w : World) (st : store) (req : request) :
  truthy (env_val (OPENAI_API_KEY w)) = false ->
  let '(resp, st', tr) := run ep w st req in
  ~ In CCompletion (calls tr)
  /\ ~ In CInsertUrlSummery (calls tr)
  /\ url_summery st' = url_summery st
  /\ exists r, resp = Ok r /\ (method req <> "OPTIONS" -> resp_status r <> 200%Z).
Proof.
  intros Hkey.
  destruct ep; exec;
    try match goal with H : negb (truthy (env_val _)) = false |- _ =>
          rewrite Hkey in H; discriminate H end;
    try match goal with H : insert_url _ _ _ _ = _ |- _ =>
          apply insert_url_frame in H as (_ & -> & _) end;
    cbn [calls kind];
    (repeat apply conj;
     [ intros H; in_cases H
     | intros H; in_cases H
     | reflexivity
     | eexists; split; [reflexivity|] ]);
    cbn [resp_status json_response preflight]; intros Hm;
    first [ discriminate
          | exfalso; apply Hm; now apply String.eqb_eq ].
Qed.


(** X7.  A failed scrape (the fetch rejects, the page status is not 2xx, or
    the body cannot be read) is answered with 500 and the error's
    message as [details] (["HTTP <status>: <statusText>"] for a
    non-2xx page); no completion request is sent and no [url_summery]
    row written. *)
Theorem scrape_failure_response
        (ep : endpoint) (w : World) (st : store) (req : request)
        (url : jsval) (ua : jsstring) (res : result http_response) (e : exn) :
  In (HttpGet url ua res) (snd (run ep w st req)) ->
  page_text res = Throw e ->
  let '(resp, st', tr) := run ep w st req in
  (exists r,
     resp = Ok r
     /\ resp_status r = 500%Z
     /\ body_field "error" r = js "Failed to scrape URL content"
     /\ body_field "details" r = JStr (message e))
  /\ ~ In CCompletion (calls tr)
  /\ ~ In CInsertUrlSummery (calls tr)
  /\ url_summery st' = url_summery st.
Proof.
  destruct ep; exec; intros Hin; in_cases Hin; injection Hin as <- <- <-;
    unfold page_text; cbn [negb];
    repeat match goal with
      | H : negb (ok _) = _ |- _ => rewrite H
      | H : text _ = _ |- _ => rewrite H
      end;
    cbn beta iota; intros Hp; try discriminate Hp;
    apply (f_equal (fun r => match r with Throw x => message x | Ok _ => [] end)) in Hp;
    cbn beta iota in Hp; rewrite <- Hp;
    try match goal with H : insert_url _ _ _ _ = _ |- _ =>
          apply insert_url_frame in H as (_ & Hframe & _); rewrite Hframe end;
    cbn [calls kind];
    (repeat apply conj;
     [ eexists; repeat apply conj; reflexivity
     | intros H; in_cases H
     | intros H; in_cases H
     | reflexivity ]).
Qed.

(** X8.  A completion call that gives no output (the call rejects, the
    status is not 2xx, the body cannot be decoded, or [choices] is
    missing) is answered with 500 and the error's message as [details]
    (["ChatGPT API error: <status> - <body>"] for a non-2xx reply); no
    [url_summery] row is written. *)
Theorem completion_failure_response
        (ep : endpoint) (w : World) (st : store) (req : request)
        (auth : jsstring) (body : chat_request) (res : result http_response) (e : exn) :
  In (HttpPostCompletion auth body res) (snd (run ep w st req)) ->
  completion_output res = Throw e ->
  let '(resp, st', tr) := run ep w st req in
  (exists r,
     resp = Ok r
     /\ resp_status r = 500%Z
     /\ body_field "error" r = JStr (completion_failure_text ep)
     /\ body_field "details" r = JStr (message e))
  /\ ~ In CInsertUrlSummery (calls tr)
  /\ url_summery st' = url_summery st.
Proof.
  destruct ep; exec; intros Hin; in_cases Hin; injection Hin as <- <- <-;
    unfold completion_output; cbn [negb];
    repeat match goal with
      | H : negb (ok _) = _ |- _ => rewrite H
      | H : text _ = _ |- _ => rewrite H
      | H : json _ = _ |- _ => rewrite H
      | H : first_choice _ = _ |- _ => rewrite H
      end;
    cbn beta iota; intros Hp; try discriminate Hp;
    apply (f_equal (fun r => match r with Throw x => message x | Ok _ => [] end)) in Hp;
    cbn beta iota in Hp; rewrite <- Hp;
    try match goal with H : insert_url _ _ _ _ = _ |- _ =>
          apply insert_url_frame in H as (_ & Hframe & _); rewrite Hframe end;
    cbn [calls kind];
    (repeat apply conj;
     [ eexists; repeat apply conj; reflexivity
     | intros H; in_cases H
     | reflexivity ]).
Qed.

(** X9.  A missing prompt (or any failure of the [prompts] read) is answered
    with 404 and the store's message as [details]; the page is not
    fetched, no completion request is sent and no [url_summery] row
    written. *)
Theorem prompt_failure_response
        (ep : endpoint) (w : World) (st : store) (req : request)
        (pid : jsval) (e : pg_error) :
  In (DbSelectPrompts pid (DbErr e)) (snd (run ep w st req)) ->
  let '(resp, st', tr) := run ep w st req in
  (exists r,
     resp = Ok r
     /\ resp_status r = 404%Z
     /\ body_field "error" r = js "Failed to fetch prompt from database"
     /\ body_field "details" r = JStr (pg_message e))
  /\ ~ In CHttpGet (calls tr)
  /\ ~ In CCompletion (calls tr)
  /\ ~ In CInsertUrlSummery (calls tr)
  /\ url_summery st' = url_summery st.
Proof.
  destruct ep; exec; intros Hin; in_cases Hin; injection Hin as <- <-;
    try match goal with H : insert_url _ _ _ _ = _ |- _ =>
          apply insert_url_frame in H as (_ & Hframe & _); rewrite Hframe end;
    cbn [calls kind];
    (repeat apply conj;
     [ eexists; repeat apply conj; reflexivity
     | intros H; in_cases H
     | intros H; in_cases H
     | intros H; in_cases H
     | reflexivity ]).
Qed.

(** X10.  The [url_summery] insert of a run refers to the URL record the run
    works on (a row of the store) and to the prompt the request names
    (which the run has read from the store), and its [ai_response] is
    never a falsy value: an empty model output has been replaced by the
    placeholder. *)
Theorem summery_insert_references
        (ep : endpoint) (w : World) (st : store) (req : request)
        (i : summery_insert) (res : db_result summery_row) :
  In (DbInsertUrlSummery i res) (snd (run ep w st req)) ->
  let '(_, st', tr) := run ep w st req in
  (exists urow, url_committed ep tr (ins_url_id i) urow /\ In urow (urls st'))
  /\ ins_prompt_id i = req_field "prompt_id" req
  /\ (exists prow,
        In (DbSelectPrompts (ins_prompt_id i) (DbOk prow)) tr /\ In prow (prompts st'))
  /\ truthy (ins_ai_response i) = true.
Proof.
  destruct ep; exec; intros Hin; in_cases Hin; injection Hin as <- <-;
    cbn [ins_url_id ins_prompt_id ins_ai_response];
    read_fields req;
    match goal with H : first_choice _ = Ok ?v |- _ =>
      pose proof (first_choice_truthy _ _ H) as Ht end;
    match goal with H : insert_summery _ _ _ = _ |- _ =>
      apply insert_summery_frame in H as (Hp & Hu & _) end;
    match goal with H : select_prompt _ _ _ = DbOk _ |- _ =>
      apply select_single_inv in H as [Hprow _] end;
    try match goal with H : select_url _ _ _ = DbOk _ |- _ =>
      apply select_single_inv in H as [Hurow _] end;
    try match goal with H : insert_url _ _ _ _ = _ |- _ =>
      apply insert_url_ok in H as [Hurow _] end;
    rewrite Hp, Hu;
    (repeat apply conj;
     [ eexists; split;
       [ first [ solve [in_list] | split; [reflexivity | do 2 eexists; in_list] ]
       | exact Hurow ]
     | match goal with H : req_field "prompt_id" _ = _ |- _ => exact (eq_sym H) end
     | eexists; split; [in_list | exact Hprow]
     | exact Ht ]).
Qed.

(** X11.  A [url_summery] row the run created is in the table, and the
    response is the 200 that reports the row's identifier as
    [summery_id]: an identifier drawn from a [BIGSERIAL] sequence is
    not 0, so [summeryData?.id || null] is the identifier. *)
Theorem summery_id_reported
        (ep : endpoint) (w : World) (st : store) (req : request)
        (i : summery_insert) (row : summery_row) :
  In (DbInsertUrlSummery i (DbOk row)) (snd (run ep w st req)) ->
  let '(resp, st', tr) := run ep w st req in
  In row (url_summery st')
  /\ exists r,
       resp = Ok r /\ resp_status r = 200%Z
       /\ body_field "summery_id" r = JNum (summery_id row).
Proof.
  destruct ep; exec; intros Hin; in_cases Hin; injection Hin as <- <-;
    passed_tests;
    match goal with H : insert_summery _ _ _ = _ |- _ =>
      pose proof (insert_summery_row _ _ _ _ _ H) as (_ & Hid & _);
      apply insert_summery_ok in H as [Hrow _] end;
    match type of Hid with
    | summery_id ?d = _ =>
        assert (Hnz : truthy (JNum (summery_id d)) = true) by (rewrite Hid; reflexivity)
    end;
    (split; [exact Hrow|]);
    (eexists; repeat apply conj; [reflexivity | reflexivity |]);
    body_fields; unfold summery_id_or_null, js_or; cbn [data_of]; rewrite Hnz;
    known_defined; reflexivity.
Qed.

(** X12.  A request whose body cannot be read as an object (not JSON, or
    [null]) is answered with 400 by the outer [catch] clause, the store
    untouched and no call made.  Ingest-and-Analyze drops the error;
    Analyze-Existing logs it and reports its message as [details]: the
    message of the rejected [req.json()], or for [null] the one of the
    destructuring, ["Cannot destructure property 'url_id' of
    '(intermediate value)' as it is null."]. *)
Theorem unreadable_body_is_400
        (ep : endpoint) (w : World) (st : store) (req : request) :
  method req <> "OPTIONS" ->
  unreadable req = true ->
  run ep w st req
  = match ep with
    | SummerizeUrl =>
        (Ok (json_response 400 [("error", js "Invalid request body")]), st, [])
    | ProcessUrl =>
        let e := read_error req "url_id" in
        (Ok (json_response 400
               [("error", js "Invalid request body or internal error");
                ("details", JStr (message e))]),
         st,
         [Console LError [js "General error:"; exn_val e]])
    end.
Proof.
  intros Hm Hu. apply String.eqb_neq in Hm.
  unfold unreadable in Hu. unfold read_error.
  destruct ep; exec_unfold; rewrite Hm; exec_simpl;
    destruct (req_json req) as [body|e]; exec_simpl; try reflexivity;
    destruct body; try discriminate Hu; cbn [destructure]; reflexivity.
Qed.

(** X13.  The outbound requests of a run.  The page request carries the
    fixed [User-Agent] and goes to the request's [url]
    (Ingest-and-Analyze) or to the stored one (Analyze-Existing); the
    completion request carries ["Bearer "] and the configured key,
    which is not empty. *)
Theorem outbound_requests
        (ep : endpoint) (w : World) (st : store) (req : request) :
  let tr := snd (run ep w st req) in
  (forall url ua res,
      In (HttpGet url ua res) tr ->
      ua = s16 "Mozilla/5.0 (compatible; UrlSummarizerBot/1.0)"
      /\ fetched_url ep req tr url)
  /\ (forall auth body res,
        In (HttpPostCompletion auth body res) tr ->
        exists key,
          OPENAI_API_KEY w = Some key /\ key <> [] /\ auth = s16 "Bearer " ++ key).
Proof.
  destruct ep; exec; cbn zeta;
    read_fields req; passed_tests;
    (split;
     [ intros url ua res Hin; in_cases Hin; injection Hin as <- <- <-;
       (split; [reflexivity|]); cbn [fetched_url];
       first [ match goal with H : req_field "url" _ = _ |- _ => exact (eq_sym H) end
             | match goal with H : req_field "url_id" _ = _ |- _ => rewrite H end;
               eexists; split; [in_list | reflexivity] ]
     | intros auth body res Hin; in_cases Hin; injection Hin as <- <- <-;
       match goal with H : truthy (env_val _) = true |- _ =>
         destruct (env_key _ H) as (key & Hk & Hne & Ht);
         exists key; repeat apply conj; [exact Hk | exact Hne | now rewrite Ht]
       end ]).
Qed.

(** X14.  A run made all five calls of its pipeline exactly when it made
    the [url_summery] insert, and a request other than a preflight is
    answered with 200 exactly when that insert was made and the store
    answered it with a row or with an error (an answer with neither
    makes the handler throw and answer 500). *)
Theorem success_iff_full_pipeline
        (ep : endpoint) (w : World) (st : store) (req : request) :
  let '(resp, _, tr) := run ep w st req in
  (calls tr = pipeline ep <-> exists row res, In (DbInsertUrlSummery row res) tr)
  /\ ((method req =? "OPTIONS") = false
      /\ (exists r, resp = Ok r /\ resp_status r = 200%Z)
      <-> exists row res, In (DbInsertUrlSummery row res) tr /\ res <> DbNone).
Proof.
  destruct ep; exec; cbn [calls kind pipeline];
    (split; split;
     [ intros Hc; try discriminate Hc; do 2 eexists; solve [in_list]
     | intros (row & res & Hin); first [ reflexivity | solve [in_cases Hin] ]
     | intros [Hm [r [Hr Hs]]]; try discriminate Hm; injection Hr as <-;
       try discriminate Hs;
       do 2 eexists; (split; [solve [in_list] | discriminate])
     | intros (row & res & Hin & Hres);
       first [ solve [in_cases Hin]
             | in_cases Hin; injection Hin as <- <-; exfalso; apply Hres; reflexivity
             | split; [reflexivity | eexists; split; reflexivity] ] ]).
Qed.

(** X15.  Ingest-and-Analyze stores what the request gave as [url] without
    looking at it: the value is only required to be truthy and to be
    accepted by the [TEXT] column.  The row the store creates holds
    that text, its caption is ["URL added at "] and the time of the
    request, and the row is in [urls] when the run ends. *)
Theorem url_row_created
        (w : World) (st : store) (req : request)
        (url : jsval) (caption : jsstring) (urow : url_row) :
  In (DbInsertUrls url caption (DbOk urow)) (snd (run SummerizeUrl w st req)) ->
  let '(_, st', tr) := run SummerizeUrl w st req in
  url = req_field "url" req
  /\ truthy url = true
  /\ pg_text (db_env w) url = Accepted (url_url urow)
  /\ url_caption urow = Some (s16 "URL added at " ++ now_iso w)
  /\ In urow (urls st').
Proof.
  exec; intros Hin; in_cases Hin; injection Hin as <- <- <-;
    read_fields req; passed_tests;
    match goal with H : insert_url _ _ _ _ = _ |- _ =>
      pose proof (insert_url_row _ _ _ _ _ _ H) as (Ht & Hc & _);
      apply insert_url_ok in H as [Hrow _] end;
    try match goal with H : insert_summery _ _ _ = _ |- _ =>
      apply insert_summery_urls in H; rewrite H end;
    (repeat apply conj;
     [ match goal with H : req_field "url" _ = _ |- _ => exact (eq_sym H) end
     | assumption | exact Ht | exact Hc | exact Hrow ]).
Qed.

(** X16.  Analyze-Existing reports as [scraped_text_length] the length of the
    text it stores, a number between 0 and 8000, whenever the
    [url_summery] insert was answered with a row or with an error. *)
Theorem scraped_text_length_reported
        (w : World) (st : store) (req : request)
        (i : summery_insert) (res : db_result summery_row) :
  In (DbInsertUrlSummery i res) (snd (run ProcessUrl w st req)) ->
  res <> DbNone ->
  exists r,
    fst (fst (run ProcessUrl w st req)) = Ok r
    /\ resp_status r = 200%Z
    /\ body_field "scraped_text_length" r
       = JNum (Z.of_nat (List.length (ins_scraped_data i)))
    /\ List.length (ins_scraped_data i) <= 8000.
Proof.
  exec; intros Hin Hres; in_cases Hin; injection Hin as <- <-;
    try (exfalso; apply Hres; reflexivity);
    passed_tests;
    (eexists; repeat apply conj; [reflexivity | reflexivity | | apply extract_length]);
    body_fields; known_defined; reflexivity.
Qed.

(** ** The components *)

Lemma truthy_str (s : jsstring) : truthy (JStr s) = true <-> s <> [].
Proof. destruct s; simpl; split; congruence. Qed.

Lemma truthy_or (a b : jsval) : truthy b = true -> truthy (js_or a b) = true.
Proof. intros H. unfold js_or. now destruct (truthy a) eqn:E. Qed.

Ltac ui_simpl :=
  cbn [EnteredURL.render fold_left EnteredURL.update EnteredURL.error EnteredURL.url
       EnteredURL.summary EnteredURL.loading EnteredURL.invocations hd_error last app].

(** X17.  [handleSummarize] with a blank URL or without a prompt: no request
    is sent, and the only state change is the error message; [loading]
    is not touched. *)
Theorem summarize_guards_refuse
        (p : EnteredURL.props) (f : EnteredURL.form) (invoke : string -> jsval -> invoked) :
  trim (EnteredURL.url f) = [] \/ truthy (EnteredURL.selectedPromptId f) = false ->
  let '(acts, end_) := EnteredURL.handleSummarize p f invoke in
  EnteredURL.invocations acts = []
  /\ end_ = Fulfilled
  /\ exists msg,
       truthy msg = true
       /\ EnteredURL.render f acts = EnteredURL.update f (EnteredURL.SetError msg).
Proof.
  intros H. unfold EnteredURL.handleSummarize.
  destruct (negb (truthy (JStr (trim (EnteredURL.url f))))) eqn:Eu.
  - repeat apply conj; try reflexivity. eexists. split; [|reflexivity]. now vm_compute.
  - destruct H as [H|H]; [rewrite H in Eu; discriminate Eu|].
    rewrite H. cbn [negb]. repeat apply conj; try reflexivity.
    eexists. split; [|reflexivity]. now vm_compute.
Qed.

(** X18.  Whenever the button is enabled, [handleSummarize] sends exactly
    one request, to [summerize_url], with the trimmed URL and the
    selected prompt; it sets [loading] first and clears it last,
    however the call ends. *)
Theorem summarize_calls_once
        (p : EnteredURL.props) (f : EnteredURL.form) (invoke : string -> jsval -> invoked) :
  EnteredURL.button_disabled f = false ->
  let '(acts, end_) := EnteredURL.handleSummarize p f invoke in
  EnteredURL.invocations acts
  = [("summerize_url",
      JObj [("url", JStr (trim (EnteredURL.url f)));
            ("prompt_id", EnteredURL.selectedPromptId f)])]
  /\ hd_error acts = Some (EnteredURL.SetLoading true)
  /\ last acts (EnteredURL.SetLoading true) = EnteredURL.SetLoading false
  /\ EnteredURL.loading (EnteredURL.render f acts) = false.
Proof.
  unfold EnteredURL.button_disabled. intros H.
  apply orb_false_iff in H as [H Hp]. apply orb_false_iff in H as [_ Hu].
  unfold EnteredURL.handleSummarize. rewrite Hu, Hp.
  destruct (invoke _ _) as [data err|err]; unfold EnteredURL.failed;
    [destruct (truthy err)|];
    try destruct (get_member err "message");
    try destruct (truthy (opt_member data "processed"));
    destruct (EnteredURL.onSummaryReceived p), (EnteredURL.onUrlProcessed p);
    ui_simpl; repeat apply conj; reflexivity.
Qed.

(** X19.  The three ways a call of [handleSummarize] ends once it is sent.
    Success: the input is cleared, a non-empty summary is shown and the
    list refresh is requested when the callback is there.  Reported
    failure: a non-empty error is shown, the input keeps the URL and
    no refresh is requested.  A rejection with [null] or [undefined]
    makes the [catch] clause itself throw: nothing is shown. *)
Theorem summarize_outcomes
        (p : EnteredURL.props) (f : EnteredURL.form) (invoke : string -> jsval -> invoked) :
  EnteredURL.button_disabled f = false ->
  let '(acts, end_) := EnteredURL.handleSummarize p f invoke in
  let f' := EnteredURL.render f acts in
  (end_ = Fulfilled
   /\ EnteredURL.error f' = js ""
   /\ EnteredURL.url f' = []
   /\ truthy (EnteredURL.summary f') = true
   /\ (In EnteredURL.OnUrlProcessed acts <-> EnteredURL.onUrlProcessed p = true))
  \/ (end_ = Fulfilled
      /\ truthy (EnteredURL.error f') = true
      /\ EnteredURL.url f' = EnteredURL.url f
      /\ EnteredURL.summary f' = js ""
      /\ ~ In EnteredURL.OnUrlProcessed acts)
  \/ (exists e err,
        end_ = RejectedWith e
        /\ invoke "summerize_url"
             (JObj [("url", JStr (trim (EnteredURL.url f)));
                    ("prompt_id", EnteredURL.selectedPromptId f)])
           = Rejected err
        /\ nullish err = true
        /\ EnteredURL.error f' = js ""
        /\ EnteredURL.url f' = EnteredURL.url f
        /\ EnteredURL.summary f' = js "").
Proof.
  unfold EnteredURL.button_disabled. intros H.
  apply orb_false_iff in H as [H Hp]. apply orb_false_iff in H as [_ Hu].
  unfold EnteredURL.handleSummarize. rewrite Hu, Hp.
  assert (Hfail : forall m, truthy (js_or m (js "Failed to process URL")) = true)
    by (intros m; apply truthy_or; now vm_compute).
  destruct (invoke _ _) as [data err|err] eqn:Ei; unfold EnteredURL.failed.
  - destruct (truthy err) eqn:Et.
    + destruct err; try discriminate Et; cbn [get_member];
        right; left; ui_simpl; repeat apply conj;
        first [ apply Hfail | reflexivity | intros Hin; in_cases Hin ].
    + left. destruct (truthy (opt_member data "processed"));
        destruct (EnteredURL.onSummaryReceived p), (EnteredURL.onUrlProcessed p);
        ui_simpl; repeat apply conj;
        first [ reflexivity
              | apply truthy_or; now vm_compute
              | match goal with |- truthy (JStr (s16 _)) = true => now vm_compute end
              | intros _; reflexivity
              | intros _; solve [in_list]
              | intros Hin; solve [in_cases Hin]
              | discriminate ].
  - destruct err; cbn [get_member];
      first [ right; right; do 2 eexists; ui_simpl; repeat apply conj; reflexivity
            | right; left; ui_simpl; repeat apply conj;
              first [ apply Hfail | reflexivity | intros Hin; in_cases Hin ] ].
Qed.

Lemma summarize_invocations
      (p : EnteredURL.props) (f : EnteredURL.form) (invoke : string -> jsval -> invoked) :
  EnteredURL.invocations (fst (EnteredURL.handleSummarize p f invoke))
  = if truthy (JStr (trim (EnteredURL.url f))) && truthy (EnteredURL.selectedPromptId f)
    then [("summerize_url",
           JObj [("url", JStr (trim (EnteredURL.url f)));
                 ("prompt_id", EnteredURL.selectedPromptId f)])]
    else [].
Proof.
  unfold EnteredURL.handleSummarize.
  destruct (truthy (JStr (trim (EnteredURL.url f)))); [|reflexivity].
  destruct (truthy (EnteredURL.selectedPromptId f)); [|reflexivity].
  cbn [negb andb].
  destruct (invoke _ _) as [data err|err]; unfold EnteredURL.failed;
    [destruct (truthy err)|];
    try destruct (get_member err "message");
    try destruct (truthy (opt_member data "processed"));
    destruct (EnteredURL.onSummaryReceived p), (EnteredURL.onUrlProcessed p);
    reflexivity.
Qed.

(** X20.  The request [handleSummarize] sends passes the handler's field
    checks: served by [summerize_url], its first call is the [urls]
    insert, of the URL without the whitespace typed around it. *)
Theorem summarize_request_is_accepted
        (p : EnteredURL.props) (f : EnteredURL.form) (invoke : string -> jsval -> invoked)
        (w : World) (st : store) (name : string) (body : jsval) :
  In (name, body) (EnteredURL.invocations (fst (EnteredURL.handleSummarize p f invoke))) ->
  name = "summerize_url"
  /\ exists res rest,
       snd (run SummerizeUrl w st (invoke_request body))
       = DbInsertUrls (JStr (trim (EnteredURL.url f)))
           (s16 "URL added at " ++ now_iso w) res :: rest.
Proof.
  rewrite summarize_invocations.
  destruct (truthy (JStr (trim (EnteredURL.url f)))) eqn:Hu; [|intros []].
  destruct (truthy (EnteredURL.selectedPromptId f)) eqn:Hp; [|intros []].
  intros [[= <- <-]|[]]. split; [reflexivity|].
  exec_unfold.
  cbn [invoke_request method req_json String.eqb Ascii.eqb Bool.eqb].
  exec_simpl. cbn [destructure opt_member lookup String.eqb Ascii.eqb Bool.eqb].
  rewrite Hu, Hp. exec; do 2 eexists; reflexivity.
Qed.

Lemma processUrl_invocations
      (selectedPrompts : list (Z * jsval)) (urlId : Z) (invoke : string -> jsval -> invoked) :
  UrlList.invocations (fst (UrlList.processUrl selectedPrompts urlId invoke))
  = if truthy (select urlId selectedPrompts)
    then [("process-url",
           JObj [("url_id", JNum urlId); ("prompt_id", select urlId selectedPrompts)])]
    else [].
Proof.
  unfold UrlList.processUrl.
  destruct (truthy (select urlId selectedPrompts)); [|reflexivity].
  cbn [negb].
  destruct (invoke _ _) as [data err|err]; unfold UrlList.failed;
    [destruct (truthy err)|];
    try destruct (get_member err "message") as [m|];
    try destruct (ToString m);
    reflexivity.
Qed.

(** X21.  [processUrl] sends one request when the URL has a prompt selected
    and none otherwise, and on every path, the refusal included, its
    last step clears [processingId]. *)
Theorem processUrl_clears_processing
        (selectedPrompts : list (Z * jsval)) (urlId : Z)
        (invoke : string -> jsval -> invoked) :
  let acts := fst (UrlList.processUrl selectedPrompts urlId invoke) in
  last acts (UrlList.SetError JNull) = UrlList.SetProcessingId None
  /\ UrlList.invocations acts
     = if UrlList.button_disabled None selectedPrompts urlId then []
       else [("process-url",
              JObj [("url_id", JNum urlId); ("prompt_id", select urlId selectedPrompts)])].
Proof.
  cbn zeta. split.
  - unfold UrlList.processUrl.
    destruct (truthy (select urlId selectedPrompts)); [|reflexivity].
    cbn [negb].
    destruct (invoke _ _) as [data err|err]; unfold UrlList.failed;
      [destruct (truthy err)|];
      try destruct (get_member err "message") as [m|];
      try destruct (ToString m);
      reflexivity.
  - rewrite processUrl_invocations. unfold UrlList.button_disabled.
    now destruct (truthy (select urlId selectedPrompts)).
Qed.

(** X22.  The request [processUrl] sends, served by [process-url].  The
    identifier 0 is refused as missing.  For any other identifier the
    handler writes its log line and starts with the [urls] read of that
    identifier; a selected prompt that the log line's template literal
    cannot convert (an object with a [toString] member, which the
    component never selects) ends the run in the outer [catch] clause
    instead, with status 400 and no call made. *)
Theorem processUrl_request_is_checked
        (selectedPrompts : list (Z * jsval)) (urlId : Z)
        (invoke : string -> jsval -> invoked)
        (w : World) (st : store) (name : string) (body : jsval) :
  In (name, body)
     (UrlList.invocations (fst (UrlList.processUrl selectedPrompts urlId invoke))) ->
  name = "process-url"
  /\ if (urlId =? 0)%Z then
       run ProcessUrl w st (invoke_request body)
       = (Ok (json_response 400 [("error", js "url_id is required")]), st, [])
     else
       match ToString (select urlId selectedPrompts) with
       | Ok _ =>
           exists msg res rest,
             snd (run ProcessUrl w st (invoke_request body))
             = Console LLog [msg] :: DbSelectUrls (JNum urlId) res :: rest
       | Throw e =>
           run ProcessUrl w st (invoke_request body)
           = (Ok (json_response 400
                    [("error", js "Invalid request body or internal error");
                     ("details", JStr (message e))]),
              st,
              [Console LError [js "General error:"; exn_val e]])
       end.
Proof.
  rewrite processUrl_invocations.
  destruct (truthy (select urlId selectedPrompts)) eqn:Hp; [|intros []].
  intros [[= <- <-]|[]]. split; [reflexivity|].
  exec_unfold.
  cbn [invoke_request method req_json String.eqb Ascii.eqb Bool.eqb].
  exec_simpl. cbn [destructure opt_member lookup String.eqb Ascii.eqb Bool.eqb truthy].
  rewrite Hp, ToString_num.
  destruct (urlId =? 0)%Z; cbn [negb]; [reflexivity|].
  destruct (ToString (select urlId selectedPrompts)); [|reflexivity].
  exec; do 3 eexists; reflexivity.
Qed.

(** X23.  [truncateUrl] cuts at [maxLength] and appends three dots, so the
    result is at most [maxLength + 3] long and agrees with the URL on
    the first [maxLength] characters; it is shorter than the URL only
    when the URL is more than three characters over the limit, and for
    a URL one or two characters over, it is longer than the URL. *)
Theorem truncateUrl_length (url : jsstring) (maxLength : nat) :
  let t := UrlList.truncateUrl url maxLength in
  List.length t <= maxLength + 3
  /\ firstn maxLength t = firstn maxLength url
  /\ (List.length url <= maxLength -> t = url)
  /\ (List.length t < List.length url <-> maxLength + 3 < List.length url)
  /\ (maxLength < List.length url < maxLength + 3 -> List.length url < List.length t).
Proof.
  cbn zeta. unfold UrlList.truncateUrl.
  destruct (maxLength <? List.length url)%nat eqn:E.
  - apply Nat.ltb_lt in E. rewrite substring_0.
    assert (Hl : List.length (firstn maxLength url ++ s16 "...") = maxLength + 3).
    { rewrite length_app, length_firstn. change (List.length (s16 "...")) with 3. lia. }
    rewrite Hl. repeat apply conj; try lia.
    rewrite firstn_app, length_firstn.
    replace (maxLength - Nat.min maxLength (List.length url)) with 0 by lia.
    rewrite firstn_firstn, Nat.min_id. cbn [firstn]. now rewrite app_nil_r.
  - apply Nat.ltb_ge in E. repeat apply conj; try lia; try reflexivity.
Qed.

Lemma select_assign_same (k : Z) (v : jsval) (obj : list (Z * jsval)) :
  select k (assign k v obj) = v.
Proof.
  induction obj as [|[k' v'] obj IH]; cbn [assign select].
  - now rewrite Z.eqb_refl.
  - destruct (k' =? k)%Z eqn:E; cbn [select]; rewrite E; [reflexivity | exact IH].
Qed.

Lemma select_assign_other (k k' : Z) (v : jsval) (obj : list (Z * jsval)) :
  k <> k' -> select k' (assign k v obj) = select k' obj.
Proof.
  intros Hne. induction obj as [|[k0 v0] obj IH]; cbn [assign select].
  - destruct (k =? k')%Z eqn:E; [apply Z.eqb_eq in E; contradiction | reflexivity].
  - destruct (k0 =? k)%Z eqn:E; cbn [select].
    + apply Z.eqb_eq in E. subst k0.
      destruct (k =? k')%Z eqn:E'; [apply Z.eqb_eq in E'; contradiction | reflexivity].
    + destruct (k0 =? k')%Z; [reflexivity | exact IH].
Qed.

(** X24.  The automatic selection of [fetchPrompts] never replaces a prompt
    that is selected, leaves the URLs it is not given as they are, and
    (for a first prompt whose identifier is not 0) leaves every URL it
    is given with a selection. *)
Theorem auto_select_keeps_choices
        (urlIds : list Z) (firstPromptId : jsval) (prev : list (Z * jsval)) (urlId : Z) :
  let next := UrlList.auto_select urlIds firstPromptId prev in
  (truthy (select urlId prev) = true -> select urlId next = select urlId prev)
  /\ (~ In urlId urlIds -> select urlId next = select urlId prev)
  /\ (In urlId urlIds -> truthy firstPromptId = true -> truthy (select urlId next) = true).
Proof.
  cbn zeta. unfold UrlList.auto_select. revert prev.
  induction urlIds as [|id ids IH]; intros prev; cbn [fold_left].
  - repeat apply conj; [reflexivity | reflexivity | intros []].
  - set (prev' := if negb (truthy (select id prev)) then assign id firstPromptId prev else prev).
    destruct (IH prev') as (IH1 & IH2 & IH3).
    assert (Hkeep : truthy (select urlId prev) = true -> select urlId prev' = select urlId prev).
    { intros Ht. subst prev'. destruct (truthy (select id prev)) eqn:E; cbn [negb]; [reflexivity|].
      apply select_assign_other. intros ->. congruence. }
    repeat apply conj.
    + intros Ht. rewrite <- (Hkeep Ht). apply IH1. now rewrite (Hkeep Ht).
    + intros Hn. rewrite IH2 by (intros Hi; apply Hn; now right).
      subst prev'. destruct (truthy (select id prev)); cbn [negb]; [reflexivity|].
      apply select_assign_other. intros ->. apply Hn. now left.
    + intros Hi Hf.
      assert (Hsel : id = urlId -> truthy (select urlId prev') = true).
      { intros ->. subst prev'. destruct (truthy (select urlId prev)) eqn:E; cbn [negb];
          [exact E | now rewrite select_assign_same]. }
      destruct (in_dec Z.eq_dec urlId ids) as [Hin|Hnin].
      * now apply IH3.
      * destruct Hi as [Hi|Hi]; [|contradiction].
        rewrite (IH2 Hnin). now apply Hsel.
Qed.

Lemma trim_clean (s : jsstring) :
  starts_with_space (trim s) = false /\ ends_with_space (trim s) = false.
Proof. split; [apply trim_starts | apply trim_ends]. Qed.

Lemma clean_trimmed (a b c : jsstring) :
  truthy (JStr (trim a)) = true -> truthy (JStr (trim b)) = true ->
  clean {| PromptsPage.prompt_name := trim a; PromptsPage.prompt := trim b;
           PromptsPage.description := trim c |}.
Proof.
  intros Ha Hb. apply truthy_str in Ha, Hb. repeat split; try assumption;
    destruct H as [<-|[<-|[<-|[]]]]; apply trim_clean.
Qed.

(** X25.  What the prompts page sends to the store, on adding and on
    updating: at most one row per call, with a name and a text that are
    not empty, and no field starting or ending with whitespace. *)
Theorem prompt_writes_are_trimmed :
  (forall formData insert,
      let sent := PromptsPage.written (fst (PromptsPage.handleAddPrompt formData insert)) in
      Forall clean sent /\ List.length sent <= 1)
  /\ (forall prompts id update,
        let sent :=
          PromptsPage.written (fst (PromptsPage.handleUpdatePrompt prompts id update)) in
        Forall clean sent /\ List.length sent <= 1).
Proof.
  split; cbn zeta.
  - intros formData insert. unfold PromptsPage.handleAddPrompt.
    destruct (truthy (JStr (trim (PromptsPage.prompt_name formData)))) eqn:Hn;
      [|cbn; split; [constructor | lia]].
    destruct (truthy (JStr (trim (PromptsPage.prompt formData)))) eqn:Hp;
      [|cbn; split; [constructor | lia]].
    cbn [negb orb].
    destruct (insert _) as [data err|err]; unfold PromptsPage.failed;
      [destruct (truthy err)|];
      try destruct (get_member err "message") as [m|];
      try destruct (ToString m);
      cbn [fst app PromptsPage.written List.length];
      (split; [constructor; [now apply clean_trimmed | constructor] | lia]).
  - intros prompts id update. unfold PromptsPage.handleUpdatePrompt.
    destruct (find _ prompts) as [p|]; [|cbn; split; [constructor | lia]].
    destruct (truthy (JStr (trim (PromptsPage.row_name p)))) eqn:Hn;
      [|cbn; split; [constructor | lia]].
    destruct (truthy (JStr (trim (PromptsPage.row_prompt p)))) eqn:Hp;
      [|cbn; split; [constructor | lia]].
    cbn [negb orb].
    destruct (PromptsPage.row_description p) as [d|].
    + destruct (update _ _) as [data err|err]; unfold PromptsPage.failed;
        [destruct (truthy err)|];
        try destruct (get_member err "message") as [m|];
        try destruct (ToString m);
        cbn [fst app PromptsPage.written List.length];
        (split; [constructor; [now apply clean_trimmed | constructor] | lia]).
    + unfold PromptsPage.failed. cbn [get_member exn_val lookup String.eqb Ascii.eqb Bool.eqb].
      rewrite ToString_str.
      cbn [fst PromptsPage.written List.length]. split; [constructor | lia].
Qed.

(** X26.  A prompt whose [description] is [NULL] in the table cannot be
    updated from the page: whatever was edited, no update is sent, and
    the page shows the required-fields message or the [TypeError] of
    [null.trim()]. *)
Theorem null_description_blocks_update
        (prompts : list PromptsPage.row) (id : Z) (update : Z -> PromptsPage.fields -> invoked)
        (p : PromptsPage.row) :
  find (fun q => (PromptsPage.id q =? id)%Z) prompts = Some p ->
  PromptsPage.row_description p = None ->
  let '(acts, end_) := PromptsPage.handleUpdatePrompt prompts id update in
  PromptsPage.written acts = []
  /\ end_ = Fulfilled
  /\ exists msg,
       In (PromptsPage.SetError (JStr msg)) acts
       /\ (msg = s16 "Prompt name and prompt text are required"
           \/ msg = s16 "Failed to update prompt: Cannot read properties of null (reading 'trim')").
Proof.
  intros Hf Hd. unfold PromptsPage.handleUpdatePrompt. rewrite Hf, Hd.
  destruct (negb _ || negb _).
  - repeat apply conj; try reflexivity. eexists. split; [left; reflexivity | now left].
  - unfold PromptsPage.failed. cbn [get_member exn_val lookup String.eqb Ascii.eqb Bool.eqb].
    rewrite ToString_str.
    repeat apply conj; try reflexivity. eexists. split; [right; left; reflexivity|].
    right. now vm_compute.
Qed.

(** ** More about the extractor *)

(** X27.  On a text in which no [<] is followed by a [>] the first three
    steps do nothing: the extraction is the whitespace-collapsed,
    trimmed text cut at 8000.  A lone [<] or [>] stays. *)
Theorem extract_without_tags (s : jsstring) :
  ~ has_tag s ->
  extract s = firstn 8000 (trim (collapse_ws false s)).
Proof.
  intros H. with_strategy transparent [extract] unfold extract.
  rewrite (strip_script_tagfree s H), (strip_style_tagfree s H), (strip_tags_tagfree s H).
  now rewrite collapse_spaces_scan, substring_0.
Qed.

(** X28.  The extracted text never starts with whitespace, and it ends with
    whitespace only when it was cut: its length is then exactly
    8000. *)
Theorem extract_boundaries (html : jsstring) :
  starts_with_space (extract html) = false
  /\ (ends_with_space (extract html) = true -> List.length (extract html) = 8000).
Proof.
  split; [apply extract_starts|].
  with_strategy transparent [extract] unfold extract. rewrite substring_0.
  set (t := trim _). intros He.
  destruct (Nat.le_gt_cases (List.length t) TEXT_LIMIT) as [Hle|Hgt].
  - rewrite (firstn_all2 _ Hle) in He. subst t. now rewrite trim_ends in He.
  - rewrite length_firstn. unfold TEXT_LIMIT in *. lia.
Qed.

(** ** The extractor as a scan *)

(** X29.  The four regular-expression steps compute what one pass from left
    to right computes: a [<script] or [<style] opens a block only when
    a [>] and then the closing tag follow (otherwise nothing of it is
    removed by steps (1) and (2)), a [<] opens a tag only when a [>]
    follows, and the whole extraction is those scans followed by the
    trim and the cut. *)
Theorem extract_is_scan (html : jsstring) : extract html = extract_scan html.
Proof.
  with_strategy transparent [extract] unfold extract. unfold extract_scan.
  now rewrite substring_0, strip_script_scan, strip_style_scan, strip_tags_scan,
    collapse_spaces_scan.
Qed.

(** ** The properties above on concrete runs *)

Lemma url_insert_failure_witness :
  run SummerizeUrl demo_world demo_store number_url_request
  = (Ok (json_response 500
           [("error", js "Failed to save URL to database");
            ("details", JStr (pg_message invalid_input));
            ("code", pg_code invalid_input);
            ("hint", pg_hint invalid_input)]),
     demo_store,
     [DbInsertUrls (JNum 5) (s16 "URL added at 2025-01-01T00:00:00.000Z")
        (DbErr invalid_input);
      Console LError [js "Database insert error:"; error_val invalid_input]]).
Proof.
  apply (url_insert_failure_is_fatal demo_world demo_store number_url_request).
  vm_compute. in_list.
Defined.

Lemma url_record_witness :
  In new_row (urls (snd (fst (run SummerizeUrl demo_world demo_store ingest_request))))
  /\ exists r,
       fst (fst (run SummerizeUrl demo_world demo_store ingest_request)) = Ok r
       /\ body_field "url_id" r = JNum (url_id new_row).
Proof.
  apply (url_record_is_kept demo_world demo_store ingest_request
           (js "https://example.com") (s16 "URL added at 2025-01-01T00:00:00.000Z")).
  vm_compute. in_list.
Defined.

Lemma no_key_witness :
  let '(resp, st', tr) := run ProcessUrl keyless_world demo_store analyze_request in
  ~ In CCompletion (calls tr)
  /\ ~ In CInsertUrlSummery (calls tr)
  /\ url_summery st' = url_summery demo_store
  /\ exists r, resp = Ok r /\ (method analyze_request <> "OPTIONS" -> resp_status r <> 200%Z).
Proof.
  apply (no_key_no_completion ProcessUrl keyless_world demo_store analyze_request).
  reflexivity.
Defined.

Lemma scrape_failure_witness :
  let '(resp, st', tr) := run SummerizeUrl not_found_world demo_store ingest_request in
  (exists r,
     resp = Ok r
     /\ resp_status r = 500%Z
     /\ body_field "error" r = js "Failed to scrape URL content"
     /\ body_field "details" r = JStr (message (Error (s16 "HTTP 404: Not Found"))))
  /\ ~ In CCompletion (calls tr)
  /\ ~ In CInsertUrlSummery (calls tr)
  /\ url_summery st' = url_summery demo_store.
Proof.
  apply (scrape_failure_response SummerizeUrl not_found_world demo_store ingest_request
           (js "https://example.com") user_agent (Ok not_found)).
  - vm_compute. in_list.
  - vm_compute. reflexivity.
Defined.

Lemma completion_failure_witness :
  let '(resp, st', tr) := run ProcessUrl no_choices_world demo_store analyze_request in
  (exists r,
     resp = Ok r
     /\ resp_status r = 500%Z
     /\ body_field "error" r = JStr (completion_failure_text ProcessUrl)
     /\ body_field "details" r = JStr (message (type_error JUndefined "0")))
  /\ ~ In CInsertUrlSummery (calls tr)
  /\ url_summery st' = url_summery demo_store.
Proof.
  apply (completion_failure_response ProcessUrl no_choices_world demo_store analyze_request
           (s16 "Bearer sk-test") demo_completion_body
           (Ok (completion_response (JObj [])))).
  - vm_compute. in_list.
  - reflexivity.
Defined.

Lemma prompt_failure_witness :
  let '(resp, st', tr) := run SummerizeUrl demo_world demo_store missing_prompt_request in
  (exists r,
     resp = Ok r
     /\ resp_status r = 404%Z
     /\ body_field "error" r = js "Failed to fetch prompt from database"
     /\ body_field "details" r = JStr (pg_message not_single_row))
  /\ ~ In CHttpGet (calls tr)
  /\ ~ In CCompletion (calls tr)
  /\ ~ In CInsertUrlSummery (calls tr)
  /\ url_summery st' = url_summery demo_store.
Proof.
  apply (prompt_failure_response SummerizeUrl demo_world demo_store missing_prompt_request
           (JNum 7)).
  vm_compute. in_list.
Defined.

Lemma summery_insert_witness :
  let '(_, st', tr) := run SummerizeUrl demo_world demo_store ingest_request in
  (exists urow,
      url_committed SummerizeUrl tr (ins_url_id summery_of_ingest) urow
      /\ In urow (urls st'))
  /\ ins_prompt_id summery_of_ingest = req_field "prompt_id" ingest_request
  /\ (exists prow,
        In (DbSelectPrompts (ins_prompt_id summery_of_ingest) (DbOk prow)) tr
        /\ In prow (prompts st'))
  /\ truthy (ins_ai_response summery_of_ingest) = true.
Proof.
  apply (summery_insert_references SummerizeUrl demo_world demo_store ingest_request
           summery_of_ingest (DbOk summery_row_of_ingest)).
  vm_compute. in_list.
Defined.

Lemma summery_id_witness :
  let '(resp, st', tr) := run ProcessUrl demo_world demo_store analyze_request in
  In summery_row_of_analyze (url_summery st')
  /\ exists r,
       resp = Ok r /\ resp_status r = 200%Z
       /\ body_field "summery_id" r = JNum (summery_id summery_row_of_analyze).
Proof.
  apply (summery_id_reported ProcessUrl demo_world demo_store analyze_request
           summery_of_analyze).
  vm_compute. in_list.
Defined.

Lemma unreadable_body_witness :
  run ProcessUrl demo_world demo_store null_request
  = (Ok (json_response 400
           [("error", js "Invalid request body or internal error");
            ("details",
             js "Cannot destructure property 'url_id' of '(intermediate value)' as it is null.")]),
     demo_store,
     [Console LError
        [js "General error:";
         JObj [("message",
                js "Cannot destructure property 'url_id' of '(intermediate value)' as it is null.")]]])
  /\ run ProcessUrl demo_world demo_store garbled_request
     = (Ok (json_response 400
              [("error", js "Invalid request body or internal error");
               ("details", JStr (message (read_error garbled_request "url_id")))]),
        demo_store,
        [Console LError [js "General error:"; exn_val (read_error garbled_request "url_id")]]).
Proof.
  split.
  - rewrite (unreadable_body_is_400 ProcessUrl demo_world demo_store null_request);
      [vm_compute; reflexivity | discriminate | reflexivity].
  - apply (unreadable_body_is_400 ProcessUrl demo_world demo_store garbled_request).
    + discriminate.
    + reflexivity.
Defined.

Lemma url_row_witness :
  let '(_, st', tr) := run SummerizeUrl demo_world demo_store ingest_request in
  js "https://example.com" = req_field "url" ingest_request
  /\ truthy (js "https://example.com") = true
  /\ pg_text (db_env demo_world) (js "https://example.com") = Accepted (url_url new_row)
  /\ url_caption new_row = Some (s16 "URL added at " ++ now_iso demo_world)
  /\ In new_row (urls st').
Proof.
  apply (url_row_created demo_world demo_store ingest_request
           (js "https://example.com") (s16 "URL added at 2025-01-01T00:00:00.000Z")).
  vm_compute. in_list.
Defined.

Lemma scraped_text_length_witness :
  exists r,
    fst (fst (run ProcessUrl demo_world demo_store analyze_request)) = Ok r
    /\ resp_status r = 200%Z
    /\ body_field "scraped_text_length" r
       = JNum (Z.of_nat (List.length (ins_scraped_data summery_of_analyze)))
    /\ List.length (ins_scraped_data summery_of_analyze) <= 8000.
Proof.
  apply (scraped_text_length_reported demo_world demo_store analyze_request
           summery_of_analyze (DbOk summery_row_of_analyze)).
  - vm_compute. in_list.
  - discriminate.
Defined.

(** A [url_summery] insert answered with neither data nor error: all
    five calls are made, the handler throws at [summeryData.id] and
    answers 500. *)
Example empty_reply_is_500 :
  let '(resp, st', tr) := run ProcessUrl silent_summery_world demo_store analyze_request in
  calls tr = pipeline ProcessUrl
  /\ In (DbInsertUrlSummery summery_of_analyze DbNone) tr
  /\ st' = demo_store
  /\ resp = Ok (json_response 500
                  [("error", js "Failed to get AI response");
                   ("details", js "Cannot read properties of null (reading 'id')")]).
Proof. vm_compute. repeat apply conj; try reflexivity. in_list. Qed.

Lemma summarize_guards_witness :
  let '(acts, end_) := EnteredURL.handleSummarize both_callbacks blank_form answered in
  EnteredURL.invocations acts = []
  /\ end_ = Fulfilled
  /\ exists msg,
       truthy msg = true
       /\ EnteredURL.render blank_form acts
          = EnteredURL.update blank_form (EnteredURL.SetError msg).
Proof.
  apply (summarize_guards_refuse both_callbacks blank_form answered).
  left. vm_compute. reflexivity.
Defined.

Lemma summarize_calls_witness :
  let '(acts, end_) := EnteredURL.handleSummarize both_callbacks typed_form answered in
  EnteredURL.invocations acts
  = [("summerize_url",
      JObj [("url", JStr (trim (EnteredURL.url typed_form)));
            ("prompt_id", EnteredURL.selectedPromptId typed_form)])]
  /\ hd_error acts = Some (EnteredURL.SetLoading true)
  /\ last acts (EnteredURL.SetLoading true) = EnteredURL.SetLoading false
  /\ EnteredURL.loading (EnteredURL.render typed_form acts) = false.
Proof.
  apply (summarize_calls_once both_callbacks typed_form answered).
  vm_compute. reflexivity.
Defined.

Lemma summarize_outcomes_witness :
  let '(acts, end_) := EnteredURL.handleSummarize both_callbacks typed_form answered in
  let f' := EnteredURL.render typed_form acts in
  (end_ = Fulfilled
   /\ EnteredURL.error f' = js ""
   /\ EnteredURL.url f' = []
   /\ truthy (EnteredURL.summary f') = true
   /\ (In EnteredURL.OnUrlProcessed acts <-> EnteredURL.onUrlProcessed both_callbacks = true))
  \/ (end_ = Fulfilled
      /\ truthy (EnteredURL.error f') = true
      /\ EnteredURL.url f' = EnteredURL.url typed_form
      /\ EnteredURL.summary f' = js ""
      /\ ~ In EnteredURL.OnUrlProcessed acts)
  \/ (exists e err,
        end_ = RejectedWith e
        /\ answered "summerize_url"
             (JObj [("url", JStr (trim (EnteredURL.url typed_form)));
                    ("prompt_id", EnteredURL.selectedPromptId typed_form)])
           = Rejected err
        /\ nullish err = true
        /\ EnteredURL.error f' = js ""
        /\ EnteredURL.url f' = EnteredURL.url typed_form
        /\ EnteredURL.summary f' = js "").
Proof.
  apply (summarize_outcomes both_callbacks typed_form answered).
  vm_compute. reflexivity.
Defined.

Lemma summarize_request_witness :
  "summerize_url" = "summerize_url"
  /\ exists res rest,
       snd (run SummerizeUrl demo_world demo_store
              (invoke_request (JObj [("url", js "https://example.com");
                                     ("prompt_id", JNum 1)])))
       = DbInsertUrls (JStr (trim (EnteredURL.url typed_form)))
           (s16 "URL added at " ++ now_iso demo_world) res :: rest.
Proof.
  apply (summarize_request_is_accepted both_callbacks typed_form answered
           demo_world demo_store).
  vm_compute. left. reflexivity.
Defined.

Lemma processUrl_request_witness :
  exists msg res rest,
    snd (run ProcessUrl demo_world demo_store
           (invoke_request (JObj [("url_id", JNum 1); ("prompt_id", JNum 1)])))
    = Console LLog [msg] :: DbSelectUrls (JNum 1) res :: rest.
Proof.
  pose proof (proj2 (processUrl_request_is_checked [(1%Z, JNum 1)] 1 answered
                       demo_world demo_store "process-url"
                       (JObj [("url_id", JNum 1); ("prompt_id", JNum 1)])
                       (or_introl eq_refl))) as H.
  exact H.
Defined.

Lemma null_description_witness :
  let '(acts, end_) := PromptsPage.handleUpdatePrompt [undescribed] 1 updated in
  PromptsPage.written acts = []
  /\ end_ = Fulfilled
  /\ exists msg,
       In (PromptsPage.SetError (JStr msg)) acts
       /\ (msg = s16 "Prompt name and prompt text are required"
           \/ msg = s16 "Failed to update prompt: Cannot read properties of null (reading 'trim')").
Proof.
  apply (null_description_blocks_update [undescribed] 1 updated undescribed);
    reflexivity.
Defined.

Lemma no_gt_no_tag (s : jsstring) : ~ In GT s -> ~ has_tag s.
Proof.
  intros H (a & b & c & ->). apply H.
  apply in_or_app. right. right. apply in_or_app. right. now left.
Qed.

Lemma extract_without_tags_witness :
  extract (s16 "1 < 2") = firstn 8000 (trim (collapse_ws false (s16 "1 < 2"))).
Proof.
  apply (extract_without_tags (s16 "1 < 2")).
  apply no_gt_no_tag. vm_compute. intros H. in_cases H.
Defined.

